(** * Uptime Monitor API: a shallow embedding of [main.py]

    The module-level dictionary [monitors] is a finite map from URL to
    monitor record, the handlers are functions that take the store and
    return their outcome together with the store they leave behind.
    What a handler observes from outside (the answer of the probed
    server, the clock, [datetime.now()]) is an explicit argument.

    A Python float is a binary64 number.  It is represented here by the
    rational number it stands for, and every float operation is the
    exact operation followed by the rounding of IEEE 754 to the nearest
    binary64 number, ties to even ([b64]).  A Python dictionary
    iterates in insertion order; [map_to_list] enumerates the same
    items in an order of its own, and no statement below depends on the
    order. *)

From Stdlib Require Import ZArith QArith Qround Qpower Lqa String DecimalString.
From Stdlib Require DecimalPos DecimalZ.
From Corelib Require PrimFloat FloatOps SpecFloat.
From Stdlib Require Uint63.
From stdpp Require Import gmap strings list fin_maps.

Local Open Scope string_scope.
Local Open Scope list_scope.
Local Open Scope Z_scope.

(** ** Python primitives *)

(** [l[start:]]: a negative [start] counts from the end and is clamped
    at the beginning of the list, a non-negative one is clamped at its
    end. *)
Definition slice_from {A : Type} (start : Z) (l : list A) : list A :=
  let n := Z.of_nat (length l) in
  let lo := if start <? 0 then Z.max (n + start) 0 else Z.min start n in
  drop (Z.to_nat lo) l.

(** [str.startswith] of a single prefix and of a tuple of prefixes. *)
Definition startswith (s p : string) : bool := String.prefix p s.

Definition startswith_any (s : string) (ps : list string) : bool :=
  existsb (startswith s) ps.

(** Rounding of an exact value to the nearest integer, ties to even. *)
Definition round_half_even (x : Q) : Z :=
  let f := Qfloor x in
  match (x - inject_Z f ?= 1 # 2)%Q with
  | Lt => f
  | Gt => f + 1
  | Eq => if Z.even f then f else f + 1
  end.

(** *** Binary64 arithmetic *)

Definition pow2 (k : Z) : Q := Qpower 2 k.

(** The binary exponent of a positive rational: the [e] with
    [2^e <= x < 2^(e+1)]. *)
Definition ilog2 (x : Q) : Z :=
  let d := Z.log2 (Qnum x) - Z.log2 (Zpos (Qden x)) in
  if Qle_bool (pow2 d) x then d else d - 1.

(** The binary64 number nearest to a positive rational, ties to even:
    53 significant bits, the spacing of the subnormal numbers below
    [2^-1022].  No value in this program comes near the overflow
    threshold [2^1024], which is not modelled. *)
Definition b64_pos (x : Q) : Q :=
  let e := Z.max (ilog2 x) (-1022) in
  (inject_Z (round_half_even (x * pow2 (52 - e))) * pow2 (e - 52))%Q.

(** Rounding to binary64, in lowest terms. *)
Definition b64 (x : Q) : Q :=
  let x := Qred x in
  match Qnum x with
  | Z0 => 0%Q
  | Zpos _ => Qred (b64_pos x)
  | Zneg _ => Qred (- b64_pos (- x))
  end.

(** [x * y] and [x - y] on floats. *)
Definition fmul (x y : Q) : Q := b64 (x * y).
Definition fsub (x y : Q) : Q := b64 (x - y).

(** [a / b] on integers: the quotient, correctly rounded. *)
Definition truediv (a b : Z) : Q := b64 (inject_Z a / inject_Z b).

(** [round(x, 2)]: the exact value of [x] is rounded to the nearest
    hundredth, ties to even, and the float nearest to that decimal is
    returned. *)
Definition round2 (x : Q) : Q := b64 (Qmake (round_half_even (x * 100)) 100).

(** [int(x)]: truncation towards zero. *)
Definition int_of_float (x : Q) : Z := Z.quot (Qnum x) (Zpos (Qden x)).

(** [str(n)] for an integer. *)
Definition str_of_int (n : Z) : string := NilZero.string_of_int (Z.to_int n).

(** Outcome of a block that may raise. *)
Inductive Result (E A : Type) : Type :=
  | Ok (a : A)
  | Raise (e : E).
Arguments Ok {E A} a.
Arguments Raise {E A} e.

(** [try: body  except Exception as e: handler(e)] *)
Definition try_except {E E' A : Type}
    (body : Result E A) (handler : E -> Result E' A) : Result E' A :=
  match body with
  | Ok a => Ok a
  | Raise e => handler e
  end.

(** ** Data model *)

Inductive Status : Type := up | down.

#[global] Instance Status_eq_dec : EqDecision Status.
Proof. solve_decision. Defined.

(** The dictionary built by [check_url_status]. *)
Record Check : Type := mkCheck {
  status : Status;
  status_code : option Z;
  response_time : Q;
  last_checked : string;
  error : option string
}.

(** A value of [monitors]; the key ["id"] is only there once it has
    been assigned. *)
Record Monitor : Type := mkMonitor {
  url : string;
  created_at : string;
  checks : list Check;
  id : option string
}.

Record MonitorResponse : Type := mkMonitorResponse {
  mr_url : string;
  mr_status : Status;
  mr_response_time : Q;
  mr_status_code : option Z;
  mr_last_checked : string;
  mr_uptime_percentage : Q
}.

(** [fastapi.HTTPException] *)
Record HTTPException : Type := mkHTTPException {
  http_status : Z;
  detail : string
}.

(** An instance of [Exception] raised while the request is issued;
    [exc_str] is its [str(e)]. *)
Record ClientError : Type := mkClientError { exc_str : string }.

(** ** The probe *)

(** What one call of [check_url_status] observes: the two readings of
    [time.time()] (floats), what [client.get] does, and
    [datetime.now()]. *)
Inductive Outcome : Type :=
  | Responded (code : Z)
  | Failed (e : ClientError).

Record Probe : Type := mkProbe {
  start_time : Q;
  outcome : Outcome;
  end_time : Q;
  now_iso : string
}.

Definition client_get (u : string) (p : Probe) : Result ClientError Z :=
  match outcome p with
  | Responded code => Ok code
  | Failed e => Raise e
  end.

Definition check_url_status (u : string) (p : Probe) : Result ClientError Check :=
  let start := start_time p in
  try_except
    (match client_get u p with
     | Ok code =>
         let rt := fmul (fsub (end_time p) start) 1000 in
         Ok {| status := if code <? 400 then up else down;
               status_code := Some code;
               response_time := round2 rt;
               last_checked := now_iso p;
               error := None |}
     | Raise e => Raise e
     end)
    (fun e =>
       let rt := fmul (fsub (end_time p) start) 1000 in
       Ok {| status := down;
             status_code := None;
             response_time := round2 rt;
             last_checked := now_iso p;
             error := Some (exc_str e) |}).

(** ** Uptime *)

(** [sum(1 for check in checks if check["status"] == "up")] *)
Definition up_checks (cs : list Check) : nat :=
  length (filter (fun c => status c = up) cs).

Definition down_checks (cs : list Check) : nat :=
  length (filter (fun c => status c = down) cs).

Definition calculate_uptime_percentage (m : Monitor) : Q :=
  match checks m with
  | [] => 0
  | _ :: _ =>
      let total_checks := length (checks m) in
      if (0 <? total_checks)%nat
      then round2 (fmul (truediv (Z.of_nat (up_checks (checks m)))
                                  (Z.of_nat total_checks)) 100)
      else 0
  end%Q.

(** ** The handlers *)

(** What can leave a handler: an [HTTPException] it raises itself, or
    whatever [await check_url_status(url)] lets through. *)
Inductive Escaped : Type :=
  | Http (e : HTTPException)
  | Client (e : ClientError).

(** A handler's outcome and the store it leaves behind. *)
Definition Handled (A : Type) : Type :=
  (Result Escaped A * gmap string Monitor)%type.

Definition http_prefixes : list string := ["http://"; "https://"].

Definition invalid_url : HTTPException :=
  {| http_status := 400;
     detail := "Invalid URL. Must start with http:// or https://" |}.

Definition already_monitored : HTTPException :=
  {| http_status := 400; detail := "URL is already being monitored" |}.

Definition monitor_not_found : HTTPException :=
  {| http_status := 404; detail := "Monitor not found" |}.

(** Lines 146-149: append to the history, keep the last 100. *)
Definition append_check (c : Check) (m : Monitor) : Monitor :=
  let cs := checks m ++ [c] in
  {| url := url m;
     created_at := created_at m;
     checks := if (100 <? length cs)%nat then slice_from (-100) cs else cs;
     id := id m |}.

(** What [get_monitors] answers: one [MonitorResponse] when a URL was
    given, the listing otherwise. *)
Inductive MonitorsAnswer : Type :=
  | Probed (r : MonitorResponse)
  | Listing (result : list MonitorResponse) (total : nat).

Definition summary (monitor_url : string) (latest_check : Check) (monitor_data : Monitor)
    : MonitorResponse :=
  {| mr_url := monitor_url;
     mr_status := status latest_check;
     mr_response_time := response_time latest_check;
     mr_status_code := status_code latest_check;
     mr_last_checked := last_checked latest_check;
     mr_uptime_percentage := calculate_uptime_percentage monitor_data |}.

(** The loop of the listing branch, one iteration. *)
Definition listing_step (result : list MonitorResponse) (item : string * Monitor)
    : list MonitorResponse :=
  match last (checks item.2) with
  | Some latest_check => result ++ [summary item.1 latest_check item.2]
  | None => result
  end.

(** [if url:] holds for a string that is given and not empty. *)
Definition truthy (u : option string) : option string :=
  match u with
  | Some s => if decide (s = "") then None else Some s
  | None => None
  end.

(** The record [get_monitors] creates for a URL it has not seen. *)
Definition implicit_monitor (u created_now : string) : Monitor :=
  {| url := u; created_at := created_now; checks := []; id := None |}.

(** [created_now] is the [datetime.now().isoformat()] of line 142. *)
Definition get_monitors (u : option string) (p : Probe) (created_now : string)
    (monitors : gmap string Monitor) : Handled MonitorsAnswer :=
  match truthy u with
  | Some u =>
      if startswith_any u http_prefixes then
        match check_url_status u p with
        | Raise e => (Raise (Client e), monitors)
        | Ok check_result =>
            let monitors :=
              match monitors !! u with
              | None => <[u := implicit_monitor u created_now]> monitors
              | Some _ => monitors
              end in
            let monitors := alter (append_check check_result) u monitors in
            let uptime_percentage :=
              match monitors !! u with
              | Some m => calculate_uptime_percentage m
              | None => 0%Q
              end in
            (Ok (Probed {| mr_url := u;
                           mr_status := status check_result;
                           mr_response_time := response_time check_result;
                           mr_status_code := status_code check_result;
                           mr_last_checked := last_checked check_result;
                           mr_uptime_percentage := uptime_percentage |}),
             monitors)
        end
      else (Raise (Http invalid_url), monitors)
  | None =>
      let result := foldl listing_step [] (map_to_list monitors) in
      (Ok (Listing result (length result)), monitors)
  end.

Record LastCheck : Type := mkLastCheck {
  timestamp : string;
  lc_status : Status;
  responseTime : Q
}.

Record Added : Type := mkAdded {
  a_id : string;
  a_url : string;
  uptime : Q;
  totalChecks : nat;
  avgResponseTime : Q;
  lastCheck : LastCheck;
  isActive : bool;
  a_message : string
}.

(** [monitors[url]["id"] = monitor_id] *)
Definition set_id (monitor_id : string) (m : Monitor) : Monitor :=
  {| url := url m; created_at := created_at m; checks := checks m;
     id := Some monitor_id |}.

(** [created_now] is the [datetime.now().isoformat()] of line 193,
    [id_clock] the float [time.time()] of line 198. *)
Definition add_monitor_logic (u : string) (p : Probe) (created_now : string)
    (id_clock : Q) (monitors : gmap string Monitor) : Handled Added :=
  if negb (startswith_any u http_prefixes) then (Raise (Http invalid_url), monitors)
  else
    match monitors !! u with
    | Some _ => (Raise (Http already_monitored), monitors)
    | None =>
        match check_url_status u p with
        | Raise e => (Raise (Client e), monitors)
        | Ok check_result =>
            let monitors :=
              <[u := {| url := u; created_at := created_now;
                        checks := [check_result]; id := None |}]> monitors in
            let monitor_id := str_of_int (int_of_float (fmul id_clock 1000)) in
            let monitors := alter (set_id monitor_id) u monitors in
            (Ok {| a_id := monitor_id;
                   a_url := u;
                   uptime := 100;
                   totalChecks := 1;
                   avgResponseTime := response_time check_result;
                   lastCheck := {| timestamp := last_checked check_result;
                                   lc_status := status check_result;
                                   responseTime := response_time check_result |};
                   isActive := true;
                   a_message := "Monitor added for " +:+ u |},
             monitors)
        end
    end.

(** [remove_monitor] and [remove_monitor_get] have the same body. *)
Definition remove_monitor (u : string) (monitors : gmap string Monitor)
    : Handled string :=
  match monitors !! u with
  | None => (Raise (Http monitor_not_found), monitors)
  | Some _ => (Ok ("Monitor removed for " +:+ u), delete u monitors)
  end.

Definition remove_monitor_get (u : string) (monitors : gmap string Monitor)
    : Handled string :=
  match monitors !! u with
  | None => (Raise (Http monitor_not_found), monitors)
  | Some _ => (Ok ("Monitor removed for " +:+ u), delete u monitors)
  end.

Record History : Type := mkHistory {
  h_url : string;
  h_checks : list Check;
  total_checks : nat;
  uptime_percentage : Q
}.

Definition get_monitor_history (u : string) (limit : Z)
    (monitors : gmap string Monitor) : Handled History :=
  match monitors !! u with
  | None => (Raise (Http monitor_not_found), monitors)
  | Some m =>
      let checks_ := slice_from (- limit) (checks m) in
      (Ok {| h_url := u;
             h_checks := checks_;
             total_checks := length (checks m);
             uptime_percentage := calculate_uptime_percentage m |},
       monitors)
  end.

Record UpUrl : Type := mkUpUrl {
  uu_url : string;
  uu_status : Status;
  uu_response_time : Q;
  uu_last_checked : string
}.

Record DownUrl : Type := mkDownUrl {
  du_url : string;
  du_status : Status;
  du_response_time : Q;
  du_last_checked : string;
  du_error : option string
}.

(** The local variables the loop of [get_stats] updates. *)
Record StatsLoop : Type := mkStatsLoop {
  l_up_monitors : nat;
  l_down_monitors : nat;
  l_down_urls : list DownUrl;
  l_up_urls : list UpUrl
}.

Definition stats_step (acc : StatsLoop) (item : string * Monitor) : StatsLoop :=
  match last (checks item.2) with
  | None => acc
  | Some latest_check =>
      let latest_status := status latest_check in
      if decide (latest_status = up) then
        {| l_up_monitors := l_up_monitors acc + 1;
           l_down_monitors := l_down_monitors acc;
           l_down_urls := l_down_urls acc;
           l_up_urls := l_up_urls acc ++
             [{| uu_url := item.1;
                 uu_status := latest_status;
                 uu_response_time := response_time latest_check;
                 uu_last_checked := last_checked latest_check |}] |}
      else
        {| l_up_monitors := l_up_monitors acc;
           l_down_monitors := l_down_monitors acc + 1;
           l_down_urls := l_down_urls acc ++
             [{| du_url := item.1;
                 du_status := latest_status;
                 du_response_time := response_time latest_check;
                 du_last_checked := last_checked latest_check;
                 du_error := error latest_check |}];
           l_up_urls := l_up_urls acc |}
  end%nat.

Record Stats : Type := mkStats {
  total_monitors : nat;
  up_monitors : nat;
  down_monitors : nat;
  overall_uptime : Q;
  up_urls : list UpUrl;
  down_urls : list DownUrl
}.

Definition get_stats (monitors : gmap string Monitor) : Handled Stats :=
  let total_monitors := size monitors in
  let acc :=
    foldl stats_step
      {| l_up_monitors := 0; l_down_monitors := 0; l_down_urls := []; l_up_urls := [] |}
      (map_to_list monitors) in
  (Ok {| total_monitors := total_monitors;
         up_monitors := l_up_monitors acc;
         down_monitors := l_down_monitors acc;
         overall_uptime :=
           if (0 <? total_monitors)%nat
           then round2 (fmul (truediv (Z.of_nat (l_up_monitors acc))
                                       (Z.of_nat total_monitors)) 100)
           else 0%Q;
         up_urls := l_up_urls acc;
         down_urls := l_down_urls acc |},
   monitors).

(** ** The routes *)

(** A request with its query parameters and with what its handler will
    observe from outside.  The routes [/] and [/api/all] answer with
    constants and never touch [monitors]; they are left out. *)
Inductive Request : Type :=
  | GET_monitors (u : option string) (apikey : string) (p : Probe) (created_now : string)
  | GET_monitors_add (u apikey : string) (p : Probe) (created_now : string) (id_clock : Q)
  | POST_monitors_add (u apikey : string) (p : Probe) (created_now : string) (id_clock : Q)
  | DELETE_monitors_remove (u apikey : string)
  | GET_monitors_remove (u apikey : string)
  | GET_monitors_history (u : string) (limit : option Z) (apikey : string)
  | GET_stats.

Inductive Answer : Type :=
  | AMonitors (a : MonitorsAnswer)
  | AAdded (a : Added)
  | ARemoved (message : string)
  | AHistory (a : History)
  | AStats (a : Stats).

Definition answer {A : Type} (wrap : A -> Answer) (h : Handled A) : Handled Answer :=
  match h.1 with
  | Ok a => (Ok (wrap a), h.2)
  | Raise e => (Raise e, h.2)
  end.

Section Routes.

(** [os.environ.get("API_KEY", "dabibanban")], read once at start-up. *)
Variable VALID_API_KEY : string.

Definition verify_api_key (apikey : string) : Result Escaped string :=
  if decide (apikey = VALID_API_KEY) then Ok apikey
  else Raise (Http {| http_status := 401; detail := "Invalid or expired api key." |}).

(** [apikey: str = Depends(verify_api_key)]: the handler only runs once
    the key has been accepted. *)
Definition depends_api_key (apikey : string) (body : gmap string Monitor -> Handled Answer)
    (monitors : gmap string Monitor) : Handled Answer :=
  match verify_api_key apikey with
  | Ok _ => body monitors
  | Raise e => (Raise e, monitors)
  end.

Definition handle (r : Request) : gmap string Monitor -> Handled Answer :=
  match r with
  | GET_monitors u apikey p created_now =>
      depends_api_key apikey (fun ms => answer AMonitors (get_monitors u p created_now ms))
  | GET_monitors_add u apikey p created_now id_clock =>
      depends_api_key apikey
        (fun ms => answer AAdded (add_monitor_logic u p created_now id_clock ms))
  | POST_monitors_add u apikey p created_now id_clock =>
      depends_api_key apikey
        (fun ms => answer AAdded (add_monitor_logic u p created_now id_clock ms))
  | DELETE_monitors_remove u apikey =>
      depends_api_key apikey (fun ms => answer ARemoved (remove_monitor u ms))
  | GET_monitors_remove u apikey =>
      depends_api_key apikey (fun ms => answer ARemoved (remove_monitor_get u ms))
  | GET_monitors_history u limit apikey =>
      depends_api_key apikey
        (fun ms => answer AHistory (get_monitor_history u (default 50 limit) ms))
  | GET_stats => fun ms => answer AStats (get_stats ms)
  end.

(** The store after a sequence of requests, served one after the other
    from the empty dictionary of line 29. *)
Definition serve (rs : list Request) : gmap string Monitor :=
  foldl (fun ms r => (handle r ms).2) ∅ rs.

End Routes.

(** ** Notions used in the statements *)

(** The [k] most recent entries of an oldest-first history, in their
    original order. *)
Definition most_recent {A : Type} (k : nat) (l : list A) : list A :=
  drop (length l - k) l.

(** A run of ad-hoc probes of the same URL. *)
Definition probes (u : string) (ws : list (Probe * string))
    (ms : gmap string Monitor) : gmap string Monitor :=
  foldl (fun ms w => (get_monitors (Some u) w.1 w.2 ms).2) ms ws.

(** The status of the most recent check of a monitor, if it has one. *)
Definition latest_status (m : Monitor) : option Status :=
  status <$> last (checks m).

Definition latest_is (s : Status) (item : string * Monitor) : Prop :=
  latest_status item.2 = Some s.

#[global] Instance latest_is_dec (s : Status) (item : string * Monitor) :
  Decision (latest_is s item).
Proof. unfold latest_is. apply _. Defined.

(** A record is well formed under its key when the key is a valid URL,
    the record carries that URL, and its history is neither empty nor
    longer than 100. *)
Definition record_ok (k : string) (m : Monitor) : Prop :=
  startswith_any k http_prefixes = true /\ url m = k /\
  checks m <> [] /\ (length (checks m) <= 100)%nat.

Definition store_ok (ms : gmap string Monitor) : Prop := map_Forall record_ok ms.

(** The key a request carries; [/api/uptime/stats] takes none. *)
Definition request_apikey (r : Request) : option string :=
  match r with
  | GET_monitors _ apikey _ _ => Some apikey
  | GET_monitors_add _ apikey _ _ _ => Some apikey
  | POST_monitors_add _ apikey _ _ _ => Some apikey
  | DELETE_monitors_remove _ apikey => Some apikey
  | GET_monitors_remove _ apikey => Some apikey
  | GET_monitors_history _ _ apikey => Some apikey
  | GET_stats => None
  end.

(** The key of [monitors] a request can write to. *)
Definition request_target (r : Request) : option string :=
  match r with
  | GET_monitors u _ _ _ => truthy u
  | GET_monitors_add u _ _ _ _ => Some u
  | POST_monitors_add u _ _ _ _ => Some u
  | DELETE_monitors_remove u _ => Some u
  | GET_monitors_remove u _ => Some u
  | GET_monitors_history _ _ _ => None
  | GET_stats => None
  end.

(** The requests that only read: the listing, the history and the
    statistics. *)
Definition read_only (r : Request) : bool :=
  match r with
  | GET_monitors u _ _ _ => negb (bool_decide (is_Some (truthy u)))
  | GET_monitors_history _ _ _ => true
  | GET_stats => true
  | _ => false
  end.

Definition unauthorized : HTTPException :=
  {| http_status := 401; detail := "Invalid or expired api key." |}.

(** The entry of the listing for one item of [monitors], if it has
    a check. *)
Definition listing_entry (item : string * Monitor) : option MonitorResponse :=
  (fun latest_check => summary item.1 latest_check item.2) <$> last (checks item.2).

Definition has_checks (item : string * Monitor) : Prop :=
  is_Some (last (checks item.2)).

#[global] Instance has_checks_dec (item : string * Monitor) : Decision (has_checks item).
Proof. unfold has_checks. apply _. Defined.

(** The rational a binary64 number of the machine stands for. *)
Definition Q_of_float (f : PrimFloat.float) : option Q :=
  match FloatOps.Prim2SF f with
  | SpecFloat.S754_zero _ => Some 0%Q
  | SpecFloat.S754_finite sign m e =>
      Some (Qred ((if sign then -1 else 1) * inject_Z (Zpos m) * pow2 e))
  | _ => None
  end.

(** An integer below [2^63] as a float of the machine. *)
Definition float_of_Z (z : Z) : PrimFloat.float :=
  PrimFloat.of_uint63 (Uint63.of_Z z).

(** Whether [u / t * 100], computed by the machine, is what [truediv]
    and [fmul] give. *)
Definition same_as_machine (u t : nat) : bool :=
  match Q_of_float (PrimFloat.mul
                      (PrimFloat.div (float_of_Z (Z.of_nat u)) (float_of_Z (Z.of_nat t)))
                      (float_of_Z 100)) with
  | Some q => Qeq_bool q (fmul (truediv (Z.of_nat u) (Z.of_nat t)) 100)
  | None => false
  end.

(** Whether the two orders of operations give the same number of
    hundredths for [u] out of [t]. *)
Definition same_hundredths (u t : nat) : bool :=
  round_half_even (fmul (truediv (Z.of_nat u) (Z.of_nat t)) 100 * 100) =?
  round_half_even (truediv (100 * Z.of_nat u) (Z.of_nat t) * 100).

(** * Properties *)

(** ** Rounding to binary64 *)

Lemma pow2_pos (k : Z) : (0 < pow2 k)%Q.
Proof. apply Qpower_0_lt. reflexivity. Qed.

Lemma pow2_plus (a b : Z) : (pow2 (a + b) == pow2 a * pow2 b)%Q.
Proof. apply Qpower_plus. discriminate. Qed.

Lemma pow2_le (a b : Z) : a <= b -> (pow2 a <= pow2 b)%Q.
Proof. intros H. apply Qpower_le_compat_l; [exact H|discriminate]. Qed.

Lemma pow2_lt_inv (a b : Z) : (pow2 a < pow2 b)%Q -> a < b.
Proof. intros H. apply (Qpower_lt_compat_l_inv 2); [exact H|reflexivity]. Qed.

Lemma pow2_inject (k : Z) : 0 <= k -> (inject_Z (2 ^ k) == pow2 k)%Q.
Proof. intros H. apply (Zpower_Qpower 2 k H). Qed.

Lemma Qmult_lt_cancel_r (a b c : Q) : (0 < c -> a * c < b * c -> a < b)%Q.
Proof. intros Hc H. apply (Qmult_lt_r a b c Hc). exact H. Qed.

Lemma ilog2_spec (x : Q) :
  (0 < x)%Q -> (pow2 (ilog2 x) <= x /\ x < pow2 (ilog2 x + 1))%Q.
Proof.
  intros Hx. destruct x as [p q].
  assert (0 < p) as Hp by (unfold Qlt in Hx; simpl in Hx; lia).
  unfold ilog2. cbn [Qnum Qden].
  set (lp := Z.log2 p). set (lq := Z.log2 (Z.pos q)).
  destruct (Z.log2_spec p Hp) as [Hp1 Hp2].
  destruct (Z.log2_spec (Z.pos q) eq_refl) as [Hq1 Hq2].
  fold lp in Hp1, Hp2. fold lq in Hq1, Hq2.
  assert (0 <= lp) as Hlp by apply Z.log2_nonneg.
  assert (0 <= lq) as Hlq by apply Z.log2_nonneg.
  rewrite Zle_Qle, pow2_inject in Hp1, Hq1 by assumption.
  rewrite Zlt_Qlt, pow2_inject in Hp2, Hq2 by lia.
  assert (p # q == inject_Z p / inject_Z (Z.pos q))%Q as Hpq by apply Qmake_Qdiv.
  set (P := inject_Z p) in *. set (D := inject_Z (Z.pos q)) in *.
  assert (0 < D)%Q as HD by (unfold D; rewrite <- (Zlt_Qlt 0); lia).
  assert ((p # q) * D == P)%Q as Hmul by (rewrite Hpq; field; lra).
  set (x := p # q) in *. clearbody x P D. clear Hpq Hx.
  assert (x < pow2 (lp - lq + 1))%Q as Hup.
  { apply (Qmult_lt_cancel_r _ _ D HD). rewrite Hmul.
    apply (Qlt_le_trans _ _ _ Hp2).
    replace (Z.succ lp) with ((lp - lq + 1) + lq) by lia. rewrite pow2_plus.
    apply Qmult_le_l; [apply pow2_pos|exact Hq1]. }
  assert (pow2 (lp - lq - 1) < x)%Q as Hlo.
  { apply (Qmult_lt_cancel_r _ _ D HD). rewrite Hmul.
    apply (Qlt_le_trans _ (pow2 (lp - lq - 1) * pow2 (Z.succ lq))).
    - apply Qmult_lt_l; [apply pow2_pos|exact Hq2].
    - rewrite <- pow2_plus. replace (lp - lq - 1 + Z.succ lq) with lp by lia.
      exact Hp1. }
  destruct (Qle_bool (pow2 (lp - lq)) x) eqn:Hb.
  - apply Qle_bool_iff in Hb. split; [exact Hb|exact Hup].
  - assert (x < pow2 (lp - lq))%Q as Hlt.
    { apply Qnot_le_lt. intros Hle. apply Qle_bool_iff in Hle. congruence. }
    split; [apply Qlt_le_weak; exact Hlo|].
    replace (lp - lq - 1 + 1) with (lp - lq) by lia. exact Hlt.
Qed.


Lemma ilog2_mono (x y : Q) : (0 < x)%Q -> (x <= y)%Q -> ilog2 x <= ilog2 y.
Proof.
  intros Hx Hxy.
  destruct (ilog2_spec x Hx) as [Hx1 _].
  destruct (ilog2_spec y (Qlt_le_trans _ _ _ Hx Hxy)) as [_ Hy2].
  assert (ilog2 x < ilog2 y + 1); [|lia].
  apply pow2_lt_inv.
  exact (Qle_lt_trans _ _ _ (Qle_trans _ _ _ Hx1 Hxy) Hy2).
Qed.

Lemma round_half_even_inject_Z (z : Z) : round_half_even (inject_Z z) = z.
Proof.
  unfold round_half_even. rewrite Qfloor_Z.
  assert ((inject_Z z - inject_Z z ?= 1 # 2)%Q = Lt) as ->
    by (apply Qlt_alt;
        assert (inject_Z z - inject_Z z == 0)%Q as -> by ring; reflexivity).
  reflexivity.
Qed.

Lemma Qcompare_cases (x y : Q) :
  match (x ?= y)%Q with
  | Eq => (x == y)%Q
  | Lt => (x < y)%Q
  | Gt => (y < x)%Q
  end.
Proof.
  destruct (x ?= y)%Q eqn:H.
  - apply Qeq_alt. exact H.
  - apply Qlt_alt. exact H.
  - apply Qgt_alt. exact H.
Qed.

Lemma round_half_even_mono (x y : Q) :
  (x <= y)%Q -> round_half_even x <= round_half_even y.
Proof.
  intros Hxy. unfold round_half_even.
  pose proof (Qfloor_resp_le x y Hxy) as Hf.
  pose proof (Qfloor_le y) as Hy1. pose proof (Qlt_floor x) as Hx2.
  destruct (Z.eq_dec (Qfloor x) (Qfloor y)) as [He|Hne].
  - rewrite <- He in *. clear He Hf.
    generalize dependent (Qfloor x). intros f Hy1 Hx2.
    set (F := inject_Z f) in *. clearbody F.
    pose proof (Qcompare_cases (x - F) (1 # 2)) as Hcx.
    pose proof (Qcompare_cases (y - F) (1 # 2)) as Hcy.
    destruct (x - F ?= 1 # 2)%Q; destruct (y - F ?= 1 # 2)%Q;
      destruct (Z.even f); try lia; exfalso; lra.
  - assert (Qfloor x + 1 <= Qfloor y) as Hlt by lia.
    destruct (x - inject_Z (Qfloor x) ?= 1 # 2)%Q;
      destruct (y - inject_Z (Qfloor y) ?= 1 # 2)%Q;
      repeat match goal with |- context [Z.even ?a] => destruct (Z.even a) end; lia.
Qed.

Lemma round_half_even_ge (x : Q) (n : Z) :
  (inject_Z n <= x)%Q -> n <= round_half_even x.
Proof.
  intros H. rewrite <- (round_half_even_inject_Z n).
  apply round_half_even_mono. exact H.
Qed.

Lemma round_half_even_le (x : Q) (n : Z) :
  (x <= inject_Z n)%Q -> round_half_even x <= n.
Proof.
  intros H. rewrite <- (round_half_even_inject_Z n).
  apply round_half_even_mono. exact H.
Qed.

Lemma round_half_even_nonneg (x : Q) : (0 <= x)%Q -> 0 <= round_half_even x.
Proof. intros H. apply (round_half_even_ge x 0). exact H. Qed.

(** The scaled significand of a positive value is below [2^53], and at
    least [2^52] unless the value is subnormal. *)
Lemma scaled_lt (x : Q) (e : Z) :
  (0 < x)%Q -> ilog2 x <= e -> (x * pow2 (52 - e) <= inject_Z (2 ^ 53))%Q.
Proof.
  intros Hx He. destruct (ilog2_spec x Hx) as [_ H2].
  rewrite pow2_inject by lia.
  replace 53 with ((e + 1) + (52 - e)) by lia. rewrite pow2_plus.
  apply Qmult_le_compat_r; [|apply Qlt_le_weak, pow2_pos].
  apply Qlt_le_weak, (Qlt_le_trans _ _ _ H2). apply pow2_le. lia.
Qed.

Lemma scaled_ge (x : Q) :
  (0 < x)%Q -> (inject_Z (2 ^ 52) <= x * pow2 (52 - ilog2 x))%Q.
Proof.
  intros Hx. destruct (ilog2_spec x Hx) as [H1 _].
  rewrite pow2_inject by lia.
  replace 52 with (ilog2 x + (52 - ilog2 x)) at 1 by lia. rewrite pow2_plus.
  apply Qmult_le_compat_r; [exact H1|apply Qlt_le_weak, pow2_pos].
Qed.

Lemma b64_pos_nonneg (x : Q) : (0 < x)%Q -> (0 <= b64_pos x)%Q.
Proof.
  intros Hx. unfold b64_pos. apply Qmult_le_0_compat.
  - rewrite <- (Zle_Qle 0). apply round_half_even_nonneg.
    apply Qmult_le_0_compat; [apply Qlt_le_weak, Hx|apply Qlt_le_weak, pow2_pos].
  - apply Qlt_le_weak, pow2_pos.
Qed.

Lemma b64_pos_mono (x y : Q) :
  (0 < x)%Q -> (x <= y)%Q -> (b64_pos x <= b64_pos y)%Q.
Proof.
  intros Hx Hxy. pose proof (Qlt_le_trans _ _ _ Hx Hxy) as Hy.
  pose proof (ilog2_mono x y Hx Hxy) as Hlog.
  unfold b64_pos.
  set (ex := Z.max (ilog2 x) (-1022)). set (ey := Z.max (ilog2 y) (-1022)).
  destruct (Z.eq_dec ex ey) as [He|Hne].
  - rewrite He. apply Qmult_le_compat_r; [|apply Qlt_le_weak, pow2_pos].
    rewrite <- Zle_Qle. apply round_half_even_mono.
    apply Qmult_le_compat_r; [exact Hxy|apply Qlt_le_weak, pow2_pos].
  - assert (ex + 1 <= ey /\ ey = ilog2 y) as [Hlt Hey] by (unfold ex, ey in *; lia).
    apply (Qle_trans _ (pow2 ey)).
    + apply (Qle_trans _ (inject_Z (2 ^ 53) * pow2 (ex - 52))).
      * apply Qmult_le_compat_r; [|apply Qlt_le_weak, pow2_pos].
        rewrite <- Zle_Qle. apply round_half_even_le.
        apply scaled_lt; [exact Hx|unfold ex; lia].
      * rewrite pow2_inject by lia. rewrite <- pow2_plus. apply pow2_le. lia.
    + apply (Qle_trans _ (inject_Z (2 ^ 52) * pow2 (ey - 52))).
      * rewrite pow2_inject by lia. rewrite <- pow2_plus.
        apply pow2_le. lia.
      * apply Qmult_le_compat_r; [|apply Qlt_le_weak, pow2_pos].
        rewrite <- Zle_Qle. apply round_half_even_ge.
        rewrite Hey. apply scaled_ge. exact Hy.
Qed.

Lemma b64_Qeq (x y : Q) : (x == y)%Q -> b64 x = b64 y.
Proof. intros H. unfold b64. rewrite (Qred_complete x y H). reflexivity. Qed.

Lemma b64_of_pos (x : Q) : (0 < x)%Q -> (b64 x == b64_pos (Qred x))%Q.
Proof.
  intros Hx. unfold b64.
  assert (0 < Qred x)%Q as Hr by (rewrite Qred_correct; exact Hx).
  destruct (Qred x) as [p q] eqn:E. unfold Qlt in Hr. simpl in Hr.
  destruct p; try lia. simpl. apply Qred_correct.
Qed.

Lemma b64_of_zero (x : Q) : (x == 0)%Q -> b64 x = 0%Q.
Proof. intros H. rewrite (b64_Qeq x 0 H). reflexivity. Qed.

Lemma b64_nonneg (x : Q) : (0 <= x)%Q -> (0 <= b64 x)%Q.
Proof.
  intros Hx. destruct (Qlt_le_dec 0 x) as [Hpos|Hle].
  - rewrite (b64_of_pos x Hpos). apply b64_pos_nonneg.
    rewrite Qred_correct. exact Hpos.
  - rewrite (b64_of_zero x); [apply Qle_refl|]. apply Qle_antisym; assumption.
Qed.

Lemma b64_mono (x y : Q) : (0 <= x)%Q -> (x <= y)%Q -> (b64 x <= b64 y)%Q.
Proof.
  intros Hx Hxy. destruct (Qlt_le_dec 0 x) as [Hpos|Hle].
  - rewrite (b64_of_pos x Hpos), (b64_of_pos y (Qlt_le_trans _ _ _ Hpos Hxy)).
    apply b64_pos_mono; rewrite !Qred_correct; assumption.
  - rewrite (b64_of_zero x) by (apply Qle_antisym; assumption).
    apply b64_nonneg. exact (Qle_trans _ _ _ Hx Hxy).
Qed.

(** The two orders of operations, [u / t * 100] and [100 * u / t],
    give the same percentage whenever the whole is at most 100. *)
Lemma percent_orders_agree_100 :
  forallb (fun t => forallb (fun u =>
    if (Nat.gcd u t =? 1)%nat then same_hundredths u t else true)
    (seq 0 (S t))) (seq 1 100) = true.
Proof. vm_compute. reflexivity. Qed.

Lemma truediv_scale (g u t : nat) :
  (0 < g)%nat -> (0 < t)%nat ->
  truediv (Z.of_nat (g * u)) (Z.of_nat (g * t)) = truediv (Z.of_nat u) (Z.of_nat t).
Proof.
  intros Hg Ht. unfold truediv. apply b64_Qeq.
  rewrite !Nat2Z.inj_mul, !inject_Z_mult.
  assert (~ inject_Z (Z.of_nat g) == 0)%Q by (unfold Qeq; simpl; lia).
  assert (~ inject_Z (Z.of_nat t) == 0)%Q by (unfold Qeq; simpl; lia).
  field. split; assumption.
Qed.

Lemma percent_table (u t : nat) :
  (u <= t)%nat -> (0 < t)%nat -> (t <= 100)%nat -> Nat.gcd u t = 1%nat ->
  round_half_even (fmul (truediv (Z.of_nat u) (Z.of_nat t)) 100 * 100) =
  round_half_even (truediv (100 * Z.of_nat u) (Z.of_nat t) * 100).
Proof.
  intros Hut Ht Ht100 Hco.
  pose proof percent_orders_agree_100 as Htab.
  rewrite forallb_forall in Htab.
  assert (In t (seq 1 100)) as Hin1 by (apply in_seq; lia).
  specialize (Htab t Hin1). rewrite forallb_forall in Htab.
  assert (In u (seq 0 (S t))) as Hin2 by (apply in_seq; lia).
  specialize (Htab u Hin2). rewrite Hco, Nat.eqb_refl in Htab.
  apply Z.eqb_eq. exact Htab.
Qed.

Lemma percent_orders_agree (u t : nat) :
  (u <= t)%nat -> (0 < t)%nat -> (t <= 100)%nat ->
  round2 (fmul (truediv (Z.of_nat u) (Z.of_nat t)) 100) =
  round2 (truediv (100 * Z.of_nat u) (Z.of_nat t)).
Proof.
  intros Hut Ht Ht100.
  set (g := Nat.gcd u t).
  assert (0 < g)%nat as Hg.
  { unfold g. destruct (Nat.eq_dec (Nat.gcd u t) 0%nat) as [E|E]; [|lia].
    apply Nat.gcd_eq_0_r in E. lia. }
  destruct (Nat.gcd_divide_l u t) as [u' Hu']. destruct (Nat.gcd_divide_r u t) as [t' Ht'].
  fold g in Hu', Ht'.
  assert (Nat.gcd u' t' = 1%nat) as Hco.
  { assert (Nat.gcd (u' * g) (t' * g) = g) as Hgg by (rewrite <- Hu', <- Ht'; reflexivity).
    rewrite Nat.gcd_mul_mono_r in Hgg. nia. }
  assert (u' <= t')%nat as Hut' by nia.
  assert (0 < t')%nat as Ht'0 by nia.
  assert (t' <= 100)%nat as Ht'100 by nia.
  pose proof (percent_table u' t' Hut' Ht'0 Ht'100 Hco) as Htab.
  assert (truediv (Z.of_nat u) (Z.of_nat t) = truediv (Z.of_nat u') (Z.of_nat t')) as E1.
  { rewrite Hu', Ht', (Nat.mul_comm u'), (Nat.mul_comm t').
    apply truediv_scale; assumption. }
  assert (truediv (100 * Z.of_nat u) (Z.of_nat t)
          = truediv (100 * Z.of_nat u') (Z.of_nat t')) as E2.
  { replace (100 * Z.of_nat u) with (Z.of_nat (g * (100 * u'))) by lia.
    replace (100 * Z.of_nat u') with (Z.of_nat (100 * u')) by lia.
    rewrite Ht', (Nat.mul_comm t'). apply truediv_scale; assumption. }
  rewrite E1, E2. unfold round2. rewrite Htab. reflexivity.
Qed.

(** [b64] against the binary64 arithmetic of the machine: the quotient
    and the product of [u / t * 100] agree for every part of a whole of
    at most 40, and of 160. *)
Lemma same_as_machine_sample :
  forallb (fun t => forallb (fun u => same_as_machine u t) (seq 0 (S t)))
    (160%nat :: seq 1 40) = true.
Proof. vm_compute. reflexivity. Qed.

(** 23 parts of 160: the quotient is rounded down, the product falls
    below 14.375, and the percentage is 14.37, not 14.38. *)
Example percentage_23_of_160 :
  round2 (fmul (truediv 23 160) 100) = b64 (1437 # 100) /\
  round2 (truediv (100 * 23) 160) = b64 (1438 # 100).
Proof. vm_compute. split; reflexivity. Qed.


(** ** Slices *)

Lemma slice_from_negative {A : Type} (k : Z) (l : list A) :
  0 < k -> slice_from (- k) l = most_recent (Z.to_nat k) l.
Proof.
  intros Hk. unfold slice_from, most_recent.
  destruct (Z.ltb_spec (- k) 0) as [_|?]; [|lia].
  f_equal. lia.
Qed.

Lemma slice_from_zero {A : Type} (l : list A) : slice_from (- 0) l = l.
Proof. unfold slice_from. simpl. rewrite Z.min_l by lia. reflexivity. Qed.

Lemma length_most_recent {A : Type} (k : nat) (l : list A) :
  length (most_recent k l) = (k `min` length l)%nat.
Proof. unfold most_recent. rewrite length_drop. lia. Qed.

Lemma most_recent_all {A : Type} (k : nat) (l : list A) :
  (length l <= k)%nat -> most_recent k l = l.
Proof.
  intros H. unfold most_recent.
  replace (length l - k)%nat with 0%nat by lia. reflexivity.
Qed.

Lemma most_recent_app {A : Type} (k : nat) (l1 l2 : list A) :
  (k <= length l2)%nat -> most_recent k (l1 ++ l2) = most_recent k l2.
Proof.
  intros H. unfold most_recent. rewrite length_app.
  replace (length l1 + length l2 - k)%nat
    with (length l1 + (length l2 - k))%nat by lia.
  apply drop_app_add.
Qed.

Lemma most_recent_app_l {A : Type} (k : nat) (l l' : list A) :
  most_recent k (most_recent k l ++ l') = most_recent k (l ++ l').
Proof.
  destruct (decide (length l <= k)%nat) as [Hle|Hgt].
  { rewrite (most_recent_all k l) by exact Hle. reflexivity. }
  destruct (decide (k <= length l')%nat) as [Hk|Hk].
  { rewrite !most_recent_app by exact Hk. reflexivity. }
  unfold most_recent at 1 3.
  rewrite !length_app, length_most_recent. unfold most_recent.
  rewrite !drop_app_le by (rewrite ?length_drop; lia).
  rewrite drop_drop. do 2 f_equal. lia.
Qed.

(** ** The probe always answers *)

Lemma check_url_status_returns (u : string) (p : Probe) :
  exists c, check_url_status u p = Ok c.
Proof.
  unfold check_url_status, client_get, try_except.
  destruct (outcome p); eexists; reflexivity.
Qed.

(** ** Appending to a history *)

Lemma append_check_checks (c : Check) (m : Monitor) :
  checks (append_check c m) = most_recent 100 (checks m ++ [c]).
Proof.
  unfold append_check. simpl.
  destruct (Nat.ltb_spec 100 (length (checks m ++ [c]))) as [Hlt|Hle].
  - apply (slice_from_negative 100). lia.
  - symmetry. apply most_recent_all. exact Hle.
Qed.

Lemma valid_url_truthy (u : string) :
  startswith_any u http_prefixes = true -> truthy (Some u) = Some u.
Proof.
  intros H. unfold truthy. destruct (decide (u = "")) as [->|_]; [|reflexivity].
  discriminate H.
Qed.

(** The ad-hoc probe of a valid URL stores the result of the probe at
    the end of the history of the URL, creating the record if needed. *)
Lemma get_monitors_probe (u : string) (p : Probe) (created_now : string)
    (c : Check) (ms : gmap string Monitor) :
  startswith_any u http_prefixes = true ->
  check_url_status u p = Ok c ->
  (get_monitors (Some u) p created_now ms).2 =
    <[u := append_check c (default (implicit_monitor u created_now) (ms !! u))]> ms.
Proof.
  intros Hu Hc. unfold get_monitors.
  rewrite (valid_url_truthy u Hu), Hu, Hc. simpl.
  destruct (ms !! u) as [m|] eqn:Hm; simpl.
  - apply map_eq. intros k. rewrite lookup_alter, lookup_insert.
    destruct (decide (u = k)) as [<-|]; [rewrite Hm|]; reflexivity.
  - apply alter_insert_eq.
Qed.

Lemma probes_checks (u : string) (ws : list (Probe * string)) (cs : list Check) :
  startswith_any u http_prefixes = true ->
  Forall2 (fun w c => check_url_status u w.1 = Ok c) ws cs ->
  forall (ms : gmap string Monitor) (m : Monitor) (X : list Check),
  ms !! u = Some m ->
  checks m = most_recent 100 X ->
  exists m', probes u ws ms !! u = Some m' /\
             checks m' = most_recent 100 (X ++ cs).
Proof.
  intros Hu HF. induction HF as [|w c ws cs Hc _ IH]; intros ms m X Hm HX.
  - exists m. rewrite app_nil_r. auto.
  - simpl. rewrite (get_monitors_probe u w.1 w.2 c ms Hu Hc), Hm. simpl.
    destruct (IH (<[u := append_check c m]> ms) (append_check c m) (X ++ [c]))
      as (m' & Hm' & Hcs).
    + apply lookup_insert_eq.
    + rewrite append_check_checks, HX. apply most_recent_app_l.
    + exists m'. split; [exact Hm'|]. rewrite Hcs, <- app_assoc. reflexivity.
Qed.

(** C1. Bounded history: after any non-empty run of appended checks for
    a URL its record holds at most 100 checks, and once 100 or more
    have been appended it holds exactly the 100 most recent of them,
    oldest first. *)
Theorem bounded_history (u : string) (ws : list (Probe * string))
    (cs : list Check) (ms : gmap string Monitor) :
  startswith_any u http_prefixes = true ->
  Forall2 (fun w c => check_url_status u w.1 = Ok c) ws cs ->
  cs <> [] ->
  exists m, probes u ws ms !! u = Some m /\
            (length (checks m) <= 100)%nat /\
            ((100 <= length cs)%nat -> checks m = most_recent 100 cs).
Proof.
  intros Hu HF Hne. destruct HF as [|w c ws cs Hc HF]; [congruence|].
  simpl. rewrite (get_monitors_probe u w.1 w.2 c ms Hu Hc).
  set (m0 := default (implicit_monitor u w.2) (ms !! u)).
  destruct (probes_checks u ws cs Hu HF (<[u := append_check c m0]> ms)
              (append_check c m0) (checks m0 ++ [c]))
    as (m' & Hm' & Hcs).
  - apply lookup_insert_eq.
  - apply append_check_checks.
  - exists m'. split; [exact Hm'|]. rewrite Hcs, <- app_assoc. split.
    + rewrite length_most_recent. lia.
    + intros Hlen. apply most_recent_app. exact Hlen.
Qed.

Lemma bounded_history_witness :
  let w := ({| start_time := 0; outcome := Responded 200; end_time := 1 # 4;
               now_iso := "t1" |}, "t0") in
  let c := {| status := up; status_code := Some 200; response_time := 250;
              last_checked := "t1"; error := None |} in
  exists m,
    probes "http://a.test" [w; w] ∅ !! "http://a.test" = Some m /\
    (length (checks m) <= 100)%nat /\
    ((100 <= length [c; c])%nat -> checks m = most_recent 100 [c; c]).
Proof.
  intros w c. apply (bounded_history "http://a.test" [w; w] [c; c] ∅).
  - reflexivity.
  - repeat (constructor; [vm_compute; reflexivity|]). constructor.
  - discriminate.
Defined.

(** ** Uptime percentage *)

Lemma round_half_even_Qeq (x y : Q) : (x == y)%Q -> round_half_even x = round_half_even y.
Proof.
  intros H. unfold round_half_even.
  rewrite (Qfloor_comp x y H).
  assert ((x - inject_Z (Qfloor y) ?= 1 # 2) = (y - inject_Z (Qfloor y) ?= 1 # 2))%Q
    as -> by (apply Qcompare_comp; [rewrite H|]; reflexivity).
  reflexivity.
Qed.

Lemma round2_Qeq (x y : Q) : (x == y)%Q -> round2 x = round2 y.
Proof.
  intros H. unfold round2.
  rewrite (round_half_even_Qeq (x * 100) (y * 100)); [reflexivity|].
  rewrite H. reflexivity.
Qed.

(** Every check is either up or down, so the two counts add up to the
    length of the history. *)
Lemma up_down_length (cs : list Check) :
  (up_checks cs + down_checks cs)%nat = length cs.
Proof.
  unfold up_checks, down_checks. induction cs as [|c cs IH]; [reflexivity|].
  rewrite !filter_cons. destruct (status c) eqn:Hs.
  - rewrite decide_True, decide_False by congruence. simpl. lia.
  - rewrite decide_False, decide_True by congruence. simpl. lia.
Qed.



(** ** Classification of a probe *)

(** C3. A probe that gets a response is up exactly when the status code
    is below 400, records the code and has no error; a probe that fails
    before any response is down, has no status code and has an error. *)
Theorem classification (u : string) (p : Probe) :
  exists c, check_url_status u p = Ok c /\
    match outcome p with
    | Responded code =>
        (status c = up <-> code < 400) /\ (status c = down <-> 400 <= code) /\
        status_code c = Some code /\ error c = None
    | Failed e =>
        status c = down /\ status_code c = None /\ error c = Some (exc_str e)
    end.
Proof.
  unfold check_url_status, client_get, try_except.
  destruct (outcome p) as [code|e]; eexists; (split; [reflexivity|]); simpl.
  - destruct (Z.ltb_spec code 400); repeat split; intros; try lia; congruence.
  - repeat split.
Qed.

Example classification_399 (u : string) (t0 t1 : Q) (now : string) :
  status <$> (match check_url_status u (mkProbe t0 (Responded 399) t1 now) with
              | Ok c => Some c | Raise _ => None end) = Some up.
Proof. reflexivity. Qed.

Example classification_400 (u : string) (t0 t1 : Q) (now : string) :
  status <$> (match check_url_status u (mkProbe t0 (Responded 400) t1 now) with
              | Ok c => Some c | Raise _ => None end) = Some down.
Proof. reflexivity. Qed.

(** C4. Whatever the transport does, the probe returns a check result;
    when the request raised, that result is down, carries the text of
    the exception and the elapsed time in milliseconds. *)
Theorem probe_failure_is_data (u : string) (p : Probe) :
  exists c, check_url_status u p = Ok c /\
    forall e, outcome p = Failed e ->
      status c = down /\ error c = Some (exc_str e) /\
      response_time c = round2 (fmul (fsub (end_time p) (start_time p)) 1000).
Proof.
  unfold check_url_status, client_get, try_except.
  destruct (outcome p) as [code|e]; eexists; (split; [reflexivity|]); simpl.
  - intros e He. discriminate He.
  - intros e' He. inversion He; subst. repeat split.
Qed.

Lemma probe_failure_is_data_witness :
  let p := {| start_time := 10; outcome := Failed {| exc_str := "timed out" |};
              end_time := 20; now_iso := "t1" |} in
  exists c, check_url_status "http://a.test" p = Ok c /\
    status c = down /\ error c = Some "timed out" /\
    response_time c = round2 (fmul (fsub 20 10) 1000).
Proof.
  intros p.
  destruct (probe_failure_is_data "http://a.test" p) as (c & Hc & H).
  exists c. split; [exact Hc|]. exact (H {| exc_str := "timed out" |} eq_refl).
Defined.

(** No route lets an exception of the HTTP client through. *)
Lemma handle_no_client_error (key : string) (r : Request)
    (ms : gmap string Monitor) (e : ClientError) :
  (handle key r ms).1 <> Raise (Client e).
Proof.
  destruct r; simpl; unfold depends_api_key, verify_api_key, answer;
    try (destruct (decide _); [|discriminate]); simpl.
  - unfold get_monitors. destruct (truthy u) as [u'|]; [|discriminate].
    destruct (startswith_any u' http_prefixes); [|discriminate].
    destruct (check_url_status_returns u' p) as [c ->]. discriminate.
  - unfold add_monitor_logic.
    destruct (startswith_any u http_prefixes); [|discriminate]. simpl.
    destruct (ms !! u); [discriminate|].
    destruct (check_url_status_returns u p) as [c ->]. discriminate.
  - unfold add_monitor_logic.
    destruct (startswith_any u http_prefixes); [|discriminate]. simpl.
    destruct (ms !! u); [discriminate|].
    destruct (check_url_status_returns u p) as [c ->]. discriminate.
  - unfold remove_monitor. destruct (ms !! u); discriminate.
  - unfold remove_monitor_get. destruct (ms !! u); discriminate.
  - unfold get_monitor_history. destruct (ms !! u); discriminate.
  - discriminate.
Qed.

(** ** Fleet statistics *)

(** What the loop of [get_stats] has computed after any number of
    iterations. *)
Lemma stats_loop (l : list (string * Monitor)) (acc : StatsLoop) :
  let acc' := foldl stats_step acc l in
  l_up_monitors acc' = (l_up_monitors acc + length (filter (latest_is up) l))%nat /\
  l_down_monitors acc' = (l_down_monitors acc + length (filter (latest_is down) l))%nat /\
  uu_url <$> l_up_urls acc' = (uu_url <$> l_up_urls acc) ++ (filter (latest_is up) l).*1 /\
  du_url <$> l_down_urls acc' = (du_url <$> l_down_urls acc) ++ (filter (latest_is down) l).*1.
Proof.
  revert acc. induction l as [|[k m] l IH]; intros acc; simpl.
  { rewrite !app_nil_r. repeat split; lia. }
  destruct (IH (stats_step acc (k, m))) as (H1 & H2 & H3 & H4).
  rewrite H1, H2, H3, H4. clear IH H1 H2 H3 H4.
  rewrite !filter_cons. unfold stats_step. simpl.
  assert (forall s, latest_is s (k, m) <-> status <$> last (checks m) = Some s) as Hiff
    by (intros s; reflexivity).
  destruct (last (checks m)) as [c|]; simpl in *.
  - destruct (decide (status c = up)) as [Hs|Hs]; simpl.
    + rewrite decide_True, decide_False by (rewrite Hiff; congruence). simpl.
      rewrite fmap_app, <- app_assoc. simpl. repeat split; lia.
    + assert (status c = down) as Hd by (destruct (status c); congruence).
      rewrite decide_False, decide_True by (rewrite Hiff; congruence). simpl.
      rewrite fmap_app, <- app_assoc. simpl. repeat split; lia.
  - rewrite !decide_False by (rewrite Hiff; congruence). repeat split; lia.
Qed.

(** Counting the items of the dictionary that satisfy a predicate. *)
Lemma length_filter_map_to_list (P : string * Monitor -> Prop)
    `{!forall x, Decision (P x)} (ms : gmap string Monitor) :
  length (filter P (map_to_list ms)) = size (filter P ms).
Proof.
  induction ms as [|k m ms Hk IH] using map_ind.
  - rewrite map_to_list_empty, map_filter_empty, map_size_empty. reflexivity.
  - rewrite (map_to_list_insert ms k m Hk), filter_cons, map_filter_insert.
    destruct (decide (P (k, m))); simpl.
    + rewrite IH, map_size_insert_None; [reflexivity|].
      apply map_lookup_filter_None. left. exact Hk.
    + rewrite IH, delete_id by exact Hk. reflexivity.
Qed.

Lemma elem_of_filter_keys (P : string * Monitor -> Prop)
    `{!forall x, Decision (P x)} (ms : gmap string Monitor) (u : string) :
  u ∈ (filter P (map_to_list ms)).*1 <-> exists m, ms !! u = Some m /\ P (u, m).
Proof.
  rewrite list_elem_of_fmap. split.
  - intros ([k m] & -> & Hin). apply list_elem_of_filter in Hin as [HP Hin].
    apply elem_of_map_to_list in Hin. eauto.
  - intros (m & Hm & HP). exists (u, m). split; [reflexivity|].
    apply list_elem_of_filter. split; [exact HP|].
    apply elem_of_map_to_list. exact Hm.
Qed.

(** C5, as the code has it. Fleet statistics: every monitor is counted
    in the total; it is counted and listed as up or down according to
    the status of its most recent check; a monitor without checks is in
    neither list; the overall uptime is [round(up / total * 100, 2)],
    or 0 for an empty store, which is [round(100 * up / total, 2)]
    whenever there are at most 100 monitors. *)
Theorem fleet_statistics (ms : gmap string Monitor) :
  exists st, get_stats ms = (Ok st, ms) /\
    total_monitors st = size ms /\
    up_monitors st = size (filter (latest_is up) ms) /\
    down_monitors st = size (filter (latest_is down) ms) /\
    (forall u, u ∈ (uu_url <$> up_urls st) <->
               exists m, ms !! u = Some m /\ latest_status m = Some up) /\
    (forall u, u ∈ (du_url <$> down_urls st) <->
               exists m, ms !! u = Some m /\ latest_status m = Some down) /\
    (forall u m, ms !! u = Some m -> checks m = [] ->
                 (u ∉ (uu_url <$> up_urls st)) /\ (u ∉ (du_url <$> down_urls st))) /\
    overall_uptime st =
      (if decide (size ms = 0%nat) then 0%Q
       else round2 (fmul (truediv (Z.of_nat (up_monitors st))
                                  (Z.of_nat (total_monitors st))) 100)) /\
    ((size ms <= 100)%nat ->
     overall_uptime st =
       (if decide (size ms = 0%nat) then 0%Q
        else round2 (truediv (100 * Z.of_nat (up_monitors st))
                             (Z.of_nat (total_monitors st))))).
Proof.
  unfold get_stats. eexists. split; [reflexivity|]. simpl.
  destruct (stats_loop (map_to_list ms)
              {| l_up_monitors := 0; l_down_monitors := 0;
                 l_down_urls := []; l_up_urls := [] |})
    as (H1 & H2 & H3 & H4).
  simpl in H1, H2, H3, H4.
  assert (forall u, u ∈ (uu_url <$> l_up_urls (foldl stats_step
              {| l_up_monitors := 0; l_down_monitors := 0;
                 l_down_urls := []; l_up_urls := [] |} (map_to_list ms))) <->
            exists m, ms !! u = Some m /\ latest_status m = Some up) as Hup.
  { intros u. rewrite H3. apply elem_of_filter_keys. }
  assert (forall u, u ∈ (du_url <$> l_down_urls (foldl stats_step
              {| l_up_monitors := 0; l_down_monitors := 0;
                 l_down_urls := []; l_up_urls := [] |} (map_to_list ms))) <->
            exists m, ms !! u = Some m /\ latest_status m = Some down) as Hdown.
  { intros u. rewrite H4. apply elem_of_filter_keys. }
  rewrite (length_filter_map_to_list (latest_is up)) in H1.
  split; [reflexivity|].
  split; [exact H1|].
  split; [rewrite H2; apply length_filter_map_to_list|].
  split; [exact Hup|]. split; [exact Hdown|]. split; [|split].
  - intros u m Hm Hcs. rewrite Hup, Hdown.
    split; intros (m' & Hm' & Hl); rewrite Hm in Hm'; inversion Hm'; subst m';
      unfold latest_status in Hl; rewrite Hcs in Hl; discriminate Hl.
  - destruct (decide (size ms = 0%nat)) as [Hz|Hz].
    + rewrite Hz. reflexivity.
    + destruct (Nat.ltb_spec 0 (size ms)) as [Hpos|?]; [reflexivity|lia].
  - intros Hbound. destruct (decide (size ms = 0%nat)) as [Hz|Hz].
    + rewrite Hz. reflexivity.
    + destruct (Nat.ltb_spec 0 (size ms)) as [Hpos|?]; [|lia].
      apply percent_orders_agree; [|exact Hpos|exact Hbound].
      rewrite H1. apply map_subseteq_size, map_filter_subseteq.
Qed.

(** The store after 160 registrations of which the first 23 found their
    URL up: the statistics give 14.37 where [round(100 * 23 / 160, 2)]
    is 14.38. *)
Lemma overall_uptime_order_matters :
  let probe (i : nat) :=
    {| start_time := 0; outcome := Responded (if (i <? 23)%nat then 200 else 500);
       end_time := 1 # 4; now_iso := "t1" |} in
  let requests :=
    (fun i => GET_monitors_add ("https://m" +:+ str_of_int (Z.of_nat i) +:+ ".test")
                "k" (probe i) "t0" 5) <$> seq 0 160 in
  match (get_stats (serve "k" requests)).1 with
  | Ok st =>
      total_monitors st = 160%nat /\ up_monitors st = 23%nat /\
      overall_uptime st = b64 (1437 # 100) /\
      round2 (truediv (100 * Z.of_nat (up_monitors st))
                      (Z.of_nat (total_monitors st))) = b64 (1438 # 100) /\
      overall_uptime st <>
        round2 (truediv (100 * Z.of_nat (up_monitors st))
                        (Z.of_nat (total_monitors st)))
  | Raise _ => False
  end.
Proof. vm_compute. repeat split. discriminate. Qed.

(** The scenario of the specification: A was last seen up, B was last
    seen down, C has no checks. *)
Example fleet_scenario :
  let c_up := {| status := up; status_code := Some 200; response_time := 12;
                 last_checked := "t1"; error := None |} in
  let c_down := {| status := down; status_code := None; response_time := 10000;
                   last_checked := "t2"; error := Some "timed out" |} in
  let ms : gmap string Monitor :=
    <["http://a.test" := mkMonitor "http://a.test" "t0" [c_down; c_up] None]>
    (<["http://b.test" := mkMonitor "http://b.test" "t0" [c_up; c_down] None]>
    (<["http://c.test" := mkMonitor "http://c.test" "t0" [] None]> ∅)) in
  match (get_stats ms).1 with
  | Ok st =>
      total_monitors st = 3%nat /\ up_monitors st = 1%nat /\
      down_monitors st = 1%nat /\ overall_uptime st = b64 (3333 # 100) /\
      uu_url <$> up_urls st = ["http://a.test"] /\
      du_url <$> down_urls st = ["http://b.test"]
  | Raise _ => False
  end.
Proof. vm_compute. repeat split. Qed.

(** ** What holds of every stored record *)

Lemma append_check_ok (k : string) (c : Check) (m : Monitor) :
  startswith_any k http_prefixes = true -> url m = k ->
  record_ok k (append_check c m).
Proof.
  intros Hk Hu. unfold record_ok. split; [exact Hk|]. split; [exact Hu|].
  assert (length (checks (append_check c m)) =
          (100 `min` (length (checks m) + 1))%nat) as Hlen.
  { rewrite append_check_checks, length_most_recent, length_app. reflexivity. }
  split; [|rewrite Hlen; apply Nat.le_min_l].
  intros Hnil. apply (f_equal length) in Hnil. rewrite Hlen in Hnil.
  cbn [length] in Hnil. lia.
Qed.

(** The store [get_monitors] leaves behind, in all its branches. *)
Lemma get_monitors_store (u : option string) (p : Probe) (created_now : string)
    (ms : gmap string Monitor) :
  (get_monitors u p created_now ms).2 = ms \/
  exists u' c, startswith_any u' http_prefixes = true /\
    (get_monitors u p created_now ms).2 =
      <[u' := append_check c (default (implicit_monitor u' created_now) (ms !! u'))]> ms.
Proof.
  unfold get_monitors. destruct (truthy u) as [u'|] eqn:Ht; [|left; reflexivity].
  destruct (startswith_any u' http_prefixes) eqn:Hu; [|left; reflexivity].
  destruct (check_url_status_returns u' p) as [c Hc].
  right. exists u', c. split; [exact Hu|].
  pose proof (get_monitors_probe u' p created_now c ms Hu Hc) as H.
  unfold get_monitors in H. rewrite (valid_url_truthy u' Hu), Hu in H. exact H.
Qed.

Lemma get_monitors_ok (u : option string) (p : Probe) (created_now : string)
    (ms : gmap string Monitor) :
  store_ok ms -> store_ok (get_monitors u p created_now ms).2.
Proof.
  intros Hok. destruct (get_monitors_store u p created_now ms)
    as [->|(u' & c & Hu & ->)]; [exact Hok|].
  apply map_Forall_insert_2; [|exact Hok].
  apply append_check_ok; [exact Hu|].
  destruct (ms !! u') as [m|] eqn:Hm; simpl; [|reflexivity].
  apply (Hok u' m Hm).
Qed.

(** The store [add_monitor_logic] leaves behind when it succeeds. *)
Lemma add_monitor_logic_store (u : string) (p : Probe) (created_now : string)
    (id_clock : Q) (ms : gmap string Monitor) (c : Check) :
  startswith_any u http_prefixes = true -> ms !! u = None ->
  check_url_status u p = Ok c ->
  (add_monitor_logic u p created_now id_clock ms).2 =
    <[u := {| url := u; created_at := created_now; checks := [c];
              id := Some (str_of_int (int_of_float (fmul id_clock 1000))) |}]> ms.
Proof.
  intros Hu Hm Hc. unfold add_monitor_logic. rewrite Hu, Hm, Hc. simpl.
  rewrite alter_insert_eq. reflexivity.
Qed.

Lemma add_monitor_logic_ok (u : string) (p : Probe) (created_now : string)
    (id_clock : Q) (ms : gmap string Monitor) :
  store_ok ms -> store_ok (add_monitor_logic u p created_now id_clock ms).2.
Proof.
  intros Hok. destruct (startswith_any u http_prefixes) eqn:Hu.
  - destruct (ms !! u) as [m|] eqn:Hm.
    + unfold add_monitor_logic. rewrite Hu, Hm. exact Hok.
    + destruct (check_url_status_returns u p) as [c Hc].
      rewrite (add_monitor_logic_store u p created_now id_clock ms c Hu Hm Hc).
      apply map_Forall_insert_2; [|exact Hok].
      unfold record_ok. simpl. repeat split; [exact Hu|discriminate|lia].
  - unfold add_monitor_logic. rewrite Hu. exact Hok.
Qed.

Lemma remove_monitor_ok (u : string) (ms : gmap string Monitor) :
  store_ok ms -> store_ok (remove_monitor u ms).2.
Proof.
  intros Hok. unfold remove_monitor. destruct (ms !! u); [|exact Hok].
  apply map_Forall_delete. exact Hok.
Qed.

Lemma remove_monitor_get_ok (u : string) (ms : gmap string Monitor) :
  store_ok ms -> store_ok (remove_monitor_get u ms).2.
Proof.
  intros Hok. unfold remove_monitor_get. destruct (ms !! u); [|exact Hok].
  apply map_Forall_delete. exact Hok.
Qed.

Lemma answer_store {A : Type} (wrap : A -> Answer) (h : Handled A) :
  (answer wrap h).2 = h.2.
Proof. unfold answer. destruct h.1; reflexivity. Qed.

Lemma handle_ok (key : string) (r : Request) (ms : gmap string Monitor) :
  store_ok ms -> store_ok (handle key r ms).2.
Proof.
  intros Hok.
  destruct r; unfold handle, depends_api_key;
    try (destruct (verify_api_key key apikey); [|exact Hok]);
    rewrite answer_store.
  - apply get_monitors_ok, Hok.
  - apply add_monitor_logic_ok, Hok.
  - apply add_monitor_logic_ok, Hok.
  - apply remove_monitor_ok, Hok.
  - apply remove_monitor_get_ok, Hok.
  - unfold get_monitor_history. destruct (ms !! u); exact Hok.
  - exact Hok.
Qed.

Lemma serve_snoc (key : string) (rs : list Request) (r : Request) :
  serve key (rs ++ [r]) = (handle key r (serve key rs)).2.
Proof. unfold serve. rewrite foldl_snoc. reflexivity. Qed.

Lemma serve_ok (key : string) (rs : list Request) : store_ok (serve key rs).
Proof.
  induction rs as [|r rs IH] using rev_ind.
  - apply map_Forall_empty.
  - rewrite serve_snoc. apply handle_ok, IH.
Qed.

(** ** Registration *)

(** In a well-formed store the duplicate check is reached for every
    key, since every key passes the prefix check before it. *)
Lemma add_monitor_logic_duplicate (u : string) (p : Probe) (created_now : string)
    (id_clock : Q) (ms : gmap string Monitor) :
  store_ok ms -> is_Some (ms !! u) ->
  add_monitor_logic u p created_now id_clock ms = (Raise (Http already_monitored), ms).
Proof.
  intros Hok [m Hm]. destruct (Hok u m Hm) as (Hu & _).
  unfold add_monitor_logic. rewrite Hu, Hm. reflexivity.
Qed.

(** C6. Adding a URL that is already a key of the store, in any store
    the service can be in, raises the duplicate-registration error and
    leaves the whole store, hence the existing record, as it was. *)
Theorem no_duplicate_registration (key : string) (rs : list Request)
    (u : string) (p : Probe) (created_now : string) (id_clock : Q) :
  is_Some (serve key rs !! u) ->
  add_monitor_logic u p created_now id_clock (serve key rs) =
    (Raise (Http already_monitored), serve key rs).
Proof.
  intros Hin. apply add_monitor_logic_duplicate; [apply serve_ok|exact Hin].
Qed.

Lemma no_duplicate_registration_witness :
  let p := {| start_time := 0; outcome := Responded 200; end_time := 1 # 4;
              now_iso := "t1" |} in
  let rs := [GET_monitors_add "https://a.test" "k" p "t0" 5] in
  add_monitor_logic "https://a.test" p "t2" 6 (serve "k" rs) =
    (Raise (Http already_monitored), serve "k" rs).
Proof.
  intros p rs. apply (no_duplicate_registration "k" rs).
  eexists. reflexivity.
Defined.

(** The same at the level of the routes: the second of two successive
    registrations is refused and changes nothing. *)
Lemma second_registration_refused (key u : string) (p p' : Probe)
    (now now' : string) (clock clock' : Q) (rs : list Request) :
  let ms := serve key (rs ++ [GET_monitors_add u key p now clock]) in
  startswith_any u http_prefixes = true ->
  handle key (POST_monitors_add u key p' now' clock') ms =
    (Raise (Http already_monitored), ms).
Proof.
  intros ms Hu. unfold handle, depends_api_key, verify_api_key.
  rewrite decide_True by reflexivity.
  assert (is_Some (ms !! u)) as Hin.
  { unfold ms. rewrite serve_snoc. unfold handle, depends_api_key, verify_api_key.
    rewrite decide_True by reflexivity. rewrite answer_store.
    destruct (serve key rs !! u) as [m|] eqn:Hm.
    - unfold add_monitor_logic. rewrite Hu, Hm. simpl. rewrite Hm. eauto.
    - destruct (check_url_status_returns u p) as [c Hc].
      rewrite (add_monitor_logic_store u p now clock _ c Hu Hm Hc).
      rewrite lookup_insert_eq. eauto. }
  unfold ms in *. unfold answer.
  rewrite (add_monitor_logic_duplicate u p' now' clock' _ (serve_ok key _) Hin).
  reflexivity.
Qed.

(** ** Removal *)

(** C7, as the code has it. Removing a key deletes its record, after
    which the history of the URL is not found and a new registration of
    the URL holds exactly the one check made by that registration;
    removing what is not a key raises not-found and changes nothing. *)
Theorem removal_clears_history (ms : gmap string Monitor) (u : string) :
  (ms !! u = None ->
   remove_monitor u ms = (Raise (Http monitor_not_found), ms) /\
   remove_monitor_get u ms = (Raise (Http monitor_not_found), ms)) /\
  (is_Some (ms !! u) ->
   remove_monitor u ms = (Ok ("Monitor removed for " +:+ u), delete u ms) /\
   remove_monitor_get u ms = (Ok ("Monitor removed for " +:+ u), delete u ms) /\
   delete u ms !! u = None /\
   (forall limit, get_monitor_history u limit (delete u ms) =
                  (Raise (Http monitor_not_found), delete u ms)) /\
   (forall p created_now id_clock c,
      startswith_any u http_prefixes = true ->
      check_url_status u p = Ok c ->
      checks <$> (add_monitor_logic u p created_now id_clock (delete u ms)).2 !! u
        = Some [c])).
Proof.
  split.
  - intros Hm. unfold remove_monitor, remove_monitor_get. rewrite Hm. split; reflexivity.
  - intros [m Hm]. unfold remove_monitor, remove_monitor_get. rewrite Hm.
    split; [reflexivity|]. split; [reflexivity|].
    assert (delete u ms !! u = None) as Hdel by apply lookup_delete_eq.
    split; [exact Hdel|]. split.
    + intros limit. unfold get_monitor_history. rewrite Hdel. reflexivity.
    + intros p created_now id_clock c Hu Hc.
      rewrite (add_monitor_logic_store u p created_now id_clock _ c Hu Hdel Hc).
      rewrite lookup_insert_eq. reflexivity.
Qed.

Lemma removal_clears_history_witness :
  let p := {| start_time := 0; outcome := Responded 200; end_time := 1 # 4;
              now_iso := "t1" |} in
  let ms := (add_monitor_logic "https://a.test" p "t0" 5 ∅).2 in
  remove_monitor "https://a.test" ms =
    (Ok "Monitor removed for https://a.test", delete "https://a.test" ms) /\
  (forall limit, get_monitor_history "https://a.test" limit (delete "https://a.test" ms) =
                 (Raise (Http monitor_not_found), delete "https://a.test" ms)).
Proof.
  intros p ms.
  destruct (proj2 (removal_clears_history ms "https://a.test"))
    as (H1 & _ & _ & H2 & _).
  - eexists. reflexivity.
  - split; [exact H1|exact H2].
Defined.

(** The history of a URL that was registered, removed and registered
    again is not empty: it holds the check of the second registration. *)
Lemma readded_history_not_empty :
  let p1 := {| start_time := 0; outcome := Responded 200; end_time := 1 # 4;
               now_iso := "t1" |} in
  let p2 := {| start_time := 2; outcome := Responded 503; end_time := 3;
               now_iso := "t3" |} in
  let ms1 := (add_monitor_logic "https://a.test" p1 "t0" 5 ∅).2 in
  let ms2 := (remove_monitor "https://a.test" ms1).2 in
  let ms3 := (add_monitor_logic "https://a.test" p2 "t2" 7 ms2).2 in
  (fun m => length (checks m)) <$> ms3 !! "https://a.test" = Some 1%nat /\
  checks <$> ms3 !! "https://a.test" <> Some [] /\
  (fun h => total_checks h) <$>
    (match (get_monitor_history "https://a.test" 50 ms3).1 with
     | Ok h => Some h | Raise _ => None end) = Some 1%nat.
Proof. vm_compute. repeat split. discriminate. Qed.

(** ** History retrieval *)

(** For a positive limit the answer holds the most recent
    [min(limit, K)] checks, oldest first, with the count of all stored
    checks and the uptime percentage. *)
Lemma history_positive_limit (ms : gmap string Monitor) (u : string)
    (m : Monitor) (limit : Z) :
  ms !! u = Some m -> 0 < limit ->
  get_monitor_history u limit ms =
    (Ok {| h_url := u;
           h_checks := most_recent (Z.to_nat limit `min` length (checks m)) (checks m);
           total_checks := length (checks m);
           uptime_percentage := calculate_uptime_percentage m |}, ms).
Proof.
  intros Hm Hl. unfold get_monitor_history. rewrite Hm.
  rewrite (slice_from_negative limit _ Hl).
  do 3 f_equal. unfold most_recent. f_equal. lia.
Qed.

(** With limit 0 the slice is [checks[-0:]], that is [checks[0:]]: the
    whole history. *)
Lemma history_limit_zero (ms : gmap string Monitor) (u : string) (m : Monitor) :
  ms !! u = Some m ->
  get_monitor_history u 0 ms =
    (Ok {| h_url := u;
           h_checks := checks m;
           total_checks := length (checks m);
           uptime_percentage := calculate_uptime_percentage m |}, ms).
Proof.
  intros Hm. unfold get_monitor_history. rewrite Hm.
  rewrite (slice_from_zero (checks m)). reflexivity.
Qed.

(** C8 at limit 0: a monitor with two stored checks answers with both
    of them, not with none. *)
Theorem history_limit_zero_returns_all :
  let c1 := {| status := up; status_code := Some 200; response_time := 12;
               last_checked := "t1"; error := None |} in
  let c2 := {| status := down; status_code := Some 500; response_time := 15;
               last_checked := "t2"; error := None |} in
  let ms : gmap string Monitor :=
    {[ "https://a.test" := mkMonitor "https://a.test" "t0" [c1; c2] (Some "5000") ]} in
  h_checks <$> (match (get_monitor_history "https://a.test" 0 ms).1 with
                | Ok h => Some h | Raise _ => None end) = Some [c1; c2] /\
  length [c1; c2] <> (Z.to_nat 0 `min` length [c1; c2])%nat.
Proof. vm_compute. split; [reflexivity|discriminate]. Qed.

(** ** Identifiers *)

(** A registration stores the identifier made from the clock reading in
    milliseconds. *)
Lemma add_monitor_logic_id (u : string) (p : Probe) (created_now : string)
    (id_clock : Q) (ms : gmap string Monitor) :
  startswith_any u http_prefixes = true -> ms !! u = None ->
  id <$> (add_monitor_logic u p created_now id_clock ms).2 !! u =
    Some (Some (str_of_int (int_of_float (fmul id_clock 1000)))).
Proof.
  intros Hu Hm. destruct (check_url_status_returns u p) as [c Hc].
  rewrite (add_monitor_logic_store u p created_now id_clock ms c Hu Hm Hc).
  rewrite lookup_insert_eq. reflexivity.
Qed.

(** The record created by the ad-hoc probe of an unseen URL has no
    identifier. *)
Lemma get_monitors_no_id (u : string) (p : Probe) (created_now : string)
    (ms : gmap string Monitor) :
  startswith_any u http_prefixes = true -> ms !! u = None ->
  id <$> (get_monitors (Some u) p created_now ms).2 !! u = Some None.
Proof.
  intros Hu Hm. destruct (check_url_status_returns u p) as [c Hc].
  rewrite (get_monitors_probe u p created_now c ms Hu Hc), Hm.
  rewrite lookup_insert_eq. reflexivity.
Qed.

(** C9 on the implicit path: after the ad-hoc probe of an unseen URL the
    store holds a record for it without identifier, where a registration
    of the same URL at the same instant stores one. *)
Theorem implicit_record_has_no_id :
  let p := {| start_time := 0; outcome := Responded 200; end_time := 1 # 4;
              now_iso := "t1" |} in
  id <$> (get_monitors (Some "https://a.test") p "t0" ∅).2 !! "https://a.test"
    = Some None /\
  id <$> (add_monitor_logic "https://a.test" p "t0"
            (b64 (1700000000123456 # 1000000)) ∅).2
           !! "https://a.test"
    = Some (Some "1700000000123").
Proof. vm_compute. split; reflexivity. Qed.

(** ** Histories are never empty *)

(** C10. After any sequence of requests every record of the store has a
    non-empty history, so it has a most recent check and the
    empty-history branches are not taken. *)
Theorem history_never_empty (key : string) (rs : list Request) :
  map_Forall (fun _ m => checks m <> [] /\ is_Some (last (checks m)) /\
                         latest_status m <> None)
    (serve key rs).
Proof.
  intros u m Hm. destruct (serve_ok key rs u m Hm) as (_ & _ & Hne & _).
  assert (is_Some (last (checks m))) as Hl.
  { destruct (checks m) as [|c cs] using rev_ind; [congruence|].
    rewrite last_snoc. eauto. }
  split; [exact Hne|]. split; [exact Hl|].
  unfold latest_status. destruct Hl as [c ->]. discriminate.
Qed.

(** * Further properties of the handlers *)

(** ** Authentication *)

(** X1. A request that carries a key other than the configured one is
    answered 401 before its handler runs: nothing is probed and the
    store is left as it was. *)
Theorem invalid_key_rejected (key k : string) (r : Request)
    (ms : gmap string Monitor) :
  request_apikey r = Some k -> k <> key ->
  handle key r ms = (Raise (Http unauthorized), ms).
Proof.
  intros Hk Hne.
  destruct r; simpl in Hk; inversion Hk; subst;
    unfold handle, depends_api_key, verify_api_key;
    rewrite decide_False by exact Hne; reflexivity.
Qed.

Lemma invalid_key_rejected_witness :
  handle "dabibanban" (DELETE_monitors_remove "https://a.test" "guess") ∅ =
    (Raise (Http unauthorized), ∅).
Proof.
  apply (invalid_key_rejected "dabibanban" "guess"); [reflexivity|discriminate].
Defined.

(** ** What a request can change *)

Lemma get_monitors_raise (u : option string) (p : Probe) (created_now : string)
    (ms : gmap string Monitor) (e : Escaped) :
  (get_monitors u p created_now ms).1 = Raise e ->
  (get_monitors u p created_now ms).2 = ms.
Proof.
  unfold get_monitors. destruct (truthy u) as [u'|]; [|discriminate].
  destruct (startswith_any u' http_prefixes); [|reflexivity].
  destruct (check_url_status u' p); [discriminate|reflexivity].
Qed.

Lemma add_monitor_logic_raise (u : string) (p : Probe) (created_now : string)
    (id_clock : Q) (ms : gmap string Monitor) (e : Escaped) :
  (add_monitor_logic u p created_now id_clock ms).1 = Raise e ->
  (add_monitor_logic u p created_now id_clock ms).2 = ms.
Proof.
  unfold add_monitor_logic. destruct (startswith_any u http_prefixes); [|reflexivity].
  simpl. destruct (ms !! u); [reflexivity|].
  destruct (check_url_status u p); [discriminate|reflexivity].
Qed.

Lemma answer_raise {A : Type} (wrap : A -> Answer) (h : Handled A) (e : Escaped) :
  (answer wrap h).1 = Raise e -> h.1 = Raise e.
Proof. unfold answer. destruct h as [[a|e'] s]; simpl; intros H; [discriminate H|congruence]. Qed.

(** X2. A request that is answered with an error has changed nothing:
    every handler raises before its first write to [monitors]. *)
Theorem failed_request_changes_nothing (key : string) (r : Request)
    (ms : gmap string Monitor) (e : Escaped) :
  (handle key r ms).1 = Raise e -> (handle key r ms).2 = ms.
Proof.
  destruct r; unfold handle, depends_api_key;
    try (destruct (verify_api_key key apikey); [|reflexivity]);
    intros H; apply answer_raise in H; rewrite answer_store.
  - exact (get_monitors_raise _ _ _ _ _ H).
  - exact (add_monitor_logic_raise _ _ _ _ _ _ H).
  - exact (add_monitor_logic_raise _ _ _ _ _ _ H).
  - unfold remove_monitor in *. destruct (ms !! u); [discriminate|reflexivity].
  - unfold remove_monitor_get in *. destruct (ms !! u); [discriminate|reflexivity].
  - unfold get_monitor_history in *. destruct (ms !! u); reflexivity.
  - reflexivity.
Qed.

Lemma failed_request_changes_nothing_witness :
  let p := {| start_time := 0; outcome := Responded 200; end_time := 1 # 4;
              now_iso := "t1" |} in
  let ms := serve "k" [GET_monitors_add "https://a.test" "k" p "t0" 5] in
  (handle "k" (GET_monitors (Some "ftp://a.test") "k" p "t2") ms).2 = ms.
Proof.
  intros p ms.
  apply (failed_request_changes_nothing "k" _ ms (Http invalid_url)).
  reflexivity.
Defined.

(** X3. The listing, the history and the statistics never change the
    store, whatever they answer. *)
Theorem reads_change_nothing (key : string) (r : Request)
    (ms : gmap string Monitor) :
  read_only r = true -> (handle key r ms).2 = ms.
Proof.
  intros Hr. destruct r; simpl in Hr; try discriminate Hr;
    unfold handle, depends_api_key;
    try (destruct (verify_api_key key apikey); [|reflexivity]);
    rewrite answer_store.
  - unfold get_monitors. destruct (truthy u) as [u'|]; [|reflexivity].
    rewrite bool_decide_eq_true_2 in Hr by eauto. discriminate Hr.
  - unfold get_monitor_history. destruct (ms !! u); reflexivity.
  - reflexivity.
Qed.

Lemma reads_change_nothing_witness :
  let p := {| start_time := 0; outcome := Responded 200; end_time := 1 # 4;
              now_iso := "t1" |} in
  let ms := serve "k" [GET_monitors_add "https://a.test" "k" p "t0" 5] in
  (handle "k" (GET_monitors_history "https://a.test" (Some 0) "k") ms).2 = ms.
Proof.
  intros p ms. apply (reads_change_nothing "k" _ ms). reflexivity.
Defined.

Lemma get_monitors_other (u : option string) (p : Probe) (created_now : string)
    (ms : gmap string Monitor) (v : string) :
  truthy u <> Some v ->
  (get_monitors u p created_now ms).2 !! v = ms !! v.
Proof.
  intros Hv. unfold get_monitors. destruct (truthy u) as [u'|]; [|reflexivity].
  assert (u' <> v) as Hne by congruence.
  destruct (startswith_any u' http_prefixes); [|reflexivity].
  destruct (check_url_status u' p); [|reflexivity]. simpl.
  rewrite lookup_alter_ne by exact Hne.
  destruct (ms !! u'); [reflexivity|]. apply lookup_insert_ne. exact Hne.
Qed.

Lemma add_monitor_logic_other (u : string) (p : Probe) (created_now : string)
    (id_clock : Q) (ms : gmap string Monitor) (v : string) :
  u <> v ->
  (add_monitor_logic u p created_now id_clock ms).2 !! v = ms !! v.
Proof.
  intros Hne. unfold add_monitor_logic.
  destruct (startswith_any u http_prefixes); [|reflexivity]. simpl.
  destruct (ms !! u); [reflexivity|].
  destruct (check_url_status u p); [|reflexivity]. simpl.
  rewrite lookup_alter_ne by exact Hne. apply lookup_insert_ne. exact Hne.
Qed.

(** X4. A request only ever writes under the URL it names: the record
    of every other URL is the same before and after. *)
Theorem other_urls_untouched (key : string) (r : Request)
    (ms : gmap string Monitor) (v : string) :
  request_target r <> Some v ->
  (handle key r ms).2 !! v = ms !! v.
Proof.
  intros Hv. destruct r; simpl in Hv; unfold handle, depends_api_key;
    try (destruct (verify_api_key key apikey); [|reflexivity]);
    rewrite answer_store.
  - apply get_monitors_other. exact Hv.
  - apply add_monitor_logic_other. congruence.
  - apply add_monitor_logic_other. congruence.
  - unfold remove_monitor. destruct (ms !! u); [|reflexivity].
    apply lookup_delete_ne. congruence.
  - unfold remove_monitor_get. destruct (ms !! u); [|reflexivity].
    apply lookup_delete_ne. congruence.
  - unfold get_monitor_history. destruct (ms !! u); reflexivity.
  - reflexivity.
Qed.

Lemma other_urls_untouched_witness :
  let p := {| start_time := 0; outcome := Responded 200; end_time := 1 # 4;
              now_iso := "t1" |} in
  let ms := serve "k" [GET_monitors_add "https://a.test" "k" p "t0" 5] in
  (handle "k" (GET_monitors (Some "https://b.test") "k" p "t2") ms).2 !! "https://a.test"
    = ms !! "https://a.test".
Proof.
  intros p ms. apply (other_urls_untouched "k" _ ms "https://a.test").
  discriminate.
Defined.

Lemma get_monitors_lookup (u : option string) (p : Probe) (created_now : string)
    (ms : gmap string Monitor) (v : string) (m m' : Monitor) :
  ms !! v = Some m ->
  (get_monitors u p created_now ms).2 !! v = Some m' ->
  m' = m \/ exists c, check_url_status v p = Ok c /\ m' = append_check c m.
Proof.
  intros Hm Hm'. destruct (decide (truthy u = Some v)) as [Hu|Hu].
  - revert Hm'. unfold get_monitors. rewrite Hu.
    destruct (startswith_any v http_prefixes); [|left; simpl in *; congruence].
    destruct (check_url_status v p) as [c|e]; [|left; simpl in *; congruence].
    simpl. rewrite Hm, lookup_alter_eq, Hm. simpl. intros [= <-]. right. eauto.
  - rewrite (get_monitors_other u p created_now ms v Hu) in Hm'. left. congruence.
Qed.

Lemma add_monitor_logic_lookup (u : string) (p : Probe) (created_now : string)
    (id_clock : Q) (ms : gmap string Monitor) (v : string) (m m' : Monitor) :
  ms !! v = Some m ->
  (add_monitor_logic u p created_now id_clock ms).2 !! v = Some m' ->
  m' = m.
Proof.
  intros Hm Hm'. destruct (decide (u = v)) as [->|Hne].
  - revert Hm'. unfold add_monitor_logic.
    destruct (startswith_any v http_prefixes); simpl; rewrite ?Hm; simpl; congruence.
  - rewrite (add_monitor_logic_other u p created_now id_clock ms v Hne) in Hm'.
    congruence.
Qed.

(** X5. No request rewrites an existing record: as long as the record
    of a URL is there, its URL, creation time and identifier stay what
    they were, and its history is either untouched or has had one check
    appended (and been cut back to 100). *)
Theorem record_identity_preserved (key : string) (r : Request)
    (ms : gmap string Monitor) (v : string) (m m' : Monitor) :
  ms !! v = Some m ->
  (handle key r ms).2 !! v = Some m' ->
  url m' = url m /\ created_at m' = created_at m /\ id m' = id m /\
  (checks m' = checks m \/
   exists c, checks m' = most_recent 100 (checks m ++ [c])).
Proof.
  intros Hm Hm'.
  assert (m' = m \/ exists c, m' = append_check c m) as [->|[c ->]].
  { revert Hm'. destruct r; unfold handle, depends_api_key;
      try (destruct (verify_api_key key apikey); [|simpl; left; congruence]);
      rewrite answer_store; intros Hm'.
    - destruct (get_monitors_lookup _ _ _ _ _ _ _ Hm Hm') as [?|(c & _ & ?)]; eauto.
    - left. exact (add_monitor_logic_lookup _ _ _ _ _ _ _ _ Hm Hm').
    - left. exact (add_monitor_logic_lookup _ _ _ _ _ _ _ _ Hm Hm').
    - left. unfold remove_monitor in Hm'. destruct (ms !! u); simpl in Hm'.
      + apply lookup_delete_Some in Hm' as [_ Hm']. congruence.
      + congruence.
    - left. unfold remove_monitor_get in Hm'. destruct (ms !! u); simpl in Hm'.
      + apply lookup_delete_Some in Hm' as [_ Hm']. congruence.
      + congruence.
    - left. unfold get_monitor_history in Hm'. destruct (ms !! u); simpl in Hm'; congruence.
    - left. simpl in Hm'. congruence. }
  - repeat split; try reflexivity. left. reflexivity.
  - repeat split; try reflexivity. right. exists c. apply append_check_checks.
Qed.

Lemma record_identity_preserved_witness :
  let p := {| start_time := 0; outcome := Responded 200; end_time := 1 # 4;
              now_iso := "t1" |} in
  let c := {| status := up; status_code := Some 200; response_time := 250;
              last_checked := "t1"; error := None |} in
  let m := {| url := "https://a.test"; created_at := "t0"; checks := [c];
              id := Some "5000" |} in
  let m' := {| url := "https://a.test"; created_at := "t0"; checks := [c; c];
               id := Some "5000" |} in
  url m' = url m /\ created_at m' = created_at m /\ id m' = id m /\
  (checks m' = checks m \/
   exists c, checks m' = most_recent 100 (checks m ++ [c])).
Proof.
  intros p c m m'.
  apply (record_identity_preserved "k"
           (GET_monitors (Some "https://a.test") "k" p "t2")
           (serve "k" [GET_monitors_add "https://a.test" "k" p "t0" 5])
           "https://a.test" m m'); reflexivity.
Defined.

(** ** What every reachable store satisfies *)

(** X6. After any sequence of requests every key of the store starts
    with [http://] or [https://], every record carries its key as its
    URL, and no history is longer than 100. *)
Theorem reachable_store_invariant (key : string) (rs : list Request) :
  map_Forall (fun k m => startswith_any k http_prefixes = true /\ url m = k /\
                         (length (checks m) <= 100)%nat)
    (serve key rs).
Proof.
  intros k m Hm. destruct (serve_ok key rs k m Hm) as (Hk & Hu & _ & Hlen).
  auto.
Qed.

(** ** Registration and removal *)

(** X7. Registering an unseen valid URL and removing it again gives
    back the store as it was before. *)
Theorem add_then_remove (u : string) (p : Probe) (created_now : string)
    (id_clock : Q) (ms : gmap string Monitor) :
  startswith_any u http_prefixes = true -> ms !! u = None ->
  remove_monitor u (add_monitor_logic u p created_now id_clock ms).2 =
    (Ok ("Monitor removed for " +:+ u), ms).
Proof.
  intros Hu Hm. destruct (check_url_status_returns u p) as [c Hc].
  rewrite (add_monitor_logic_store u p created_now id_clock ms c Hu Hm Hc).
  unfold remove_monitor. rewrite lookup_insert_eq, delete_insert_eq.
  rewrite (delete_id ms u Hm). reflexivity.
Qed.

Lemma add_then_remove_witness :
  let p := {| start_time := 0; outcome := Failed {| exc_str := "timed out" |};
              end_time := 10; now_iso := "t1" |} in
  remove_monitor "http://a.test" (add_monitor_logic "http://a.test" p "t0" 5 ∅).2 =
    (Ok "Monitor removed for http://a.test", ∅).
Proof.
  intros p. apply (add_then_remove "http://a.test" p "t0" 5 ∅); reflexivity.
Defined.

(** X8. How the number of monitors moves, for a valid URL: when the
    URL is unseen, a registration and an ad-hoc probe each add one
    monitor and a removal none; when it is already monitored, a
    registration and a probe add none and a removal takes one away. *)
Theorem monitor_count (u : string) (p : Probe) (created_now : string)
    (id_clock : Q) (ms : gmap string Monitor) :
  startswith_any u http_prefixes = true ->
  match ms !! u with
  | None =>
      size (add_monitor_logic u p created_now id_clock ms).2 = S (size ms) /\
      size (get_monitors (Some u) p created_now ms).2 = S (size ms) /\
      size (remove_monitor u ms).2 = size ms
  | Some _ =>
      size (add_monitor_logic u p created_now id_clock ms).2 = size ms /\
      size (get_monitors (Some u) p created_now ms).2 = size ms /\
      S (size (remove_monitor u ms).2) = size ms
  end.
Proof.
  intros Hu. destruct (check_url_status_returns u p) as [c Hc].
  rewrite (get_monitors_probe u p created_now c ms Hu Hc).
  destruct (ms !! u) as [m|] eqn:Hm.
  - split; [|split].
    + unfold add_monitor_logic. rewrite Hu, Hm. reflexivity.
    + apply map_size_insert_Some. eauto.
    + unfold remove_monitor. rewrite Hm. simpl.
      rewrite map_size_delete, Hm.
      assert (size ms <> 0%nat) as Hnz.
      { intros Hz. apply map_size_empty_inv in Hz. subst ms.
        rewrite lookup_empty in Hm. discriminate Hm. }
      destruct (size ms); [congruence|reflexivity].
  - split; [|split].
    + rewrite (add_monitor_logic_store u p created_now id_clock ms c Hu Hm Hc).
      apply map_size_insert_None. exact Hm.
    + apply map_size_insert_None. exact Hm.
    + unfold remove_monitor. rewrite Hm. reflexivity.
Qed.

Lemma monitor_count_witness :
  let p := {| start_time := 0; outcome := Responded 200; end_time := 1 # 4;
              now_iso := "t1" |} in
  size (add_monitor_logic "https://a.test" p "t0" 5 ∅).2 = S (size (∅ : gmap string Monitor)) /\
  size (get_monitors (Some "https://a.test") p "t0" ∅).2 = S (size (∅ : gmap string Monitor)) /\
  size (remove_monitor "https://a.test" ∅).2 = size (∅ : gmap string Monitor).
Proof.
  intros p.
  exact (monitor_count "https://a.test" p "t0" 5 ∅ eq_refl).
Defined.

(** ** The ad-hoc probe *)

Lemma last_most_recent_snoc {A : Type} (k : nat) (l : list A) (x : A) :
  (0 < k)%nat -> last (most_recent k (l ++ [x])) = Some x.
Proof.
  intros Hk. unfold most_recent. rewrite length_app. simpl.
  rewrite drop_app_le by lia. rewrite last_snoc. reflexivity.
Qed.

(** X9. The ad-hoc probe of a valid URL answers with what the probe
    found and has stored just that: the check is the most recent one of
    the record, and the uptime percentage of the answer is the one of
    the record with the new check counted in. *)
Theorem probe_reports_latest (u : string) (p : Probe) (created_now : string)
    (c : Check) (ms : gmap string Monitor) :
  startswith_any u http_prefixes = true ->
  check_url_status u p = Ok c ->
  exists r m',
    get_monitors (Some u) p created_now ms =
      (Ok (Probed r), <[u := m']> ms) /\
    last (checks m') = Some c /\
    mr_url r = u /\ mr_status r = status c /\ mr_status_code r = status_code c /\
    mr_response_time r = response_time c /\ mr_last_checked r = last_checked c /\
    mr_uptime_percentage r = calculate_uptime_percentage m'.
Proof.
  intros Hu Hc.
  pose proof (get_monitors_probe u p created_now c ms Hu Hc) as Hst.
  set (m' := append_check c (default (implicit_monitor u created_now) (ms !! u))) in *.
  assert (last (checks m') = Some c) as Hlast.
  { unfold m'. rewrite append_check_checks. apply last_most_recent_snoc. lia. }
  revert Hst. unfold get_monitors. rewrite (valid_url_truthy u Hu), Hu, Hc.
  cbn [snd]. intros Hst. rewrite Hst, lookup_insert_eq.
  eexists _, m'. split; [reflexivity|]. simpl. auto 10.
Qed.

Lemma probe_reports_latest_witness :
  let p := {| start_time := 0; outcome := Responded 404; end_time := 1 # 4;
              now_iso := "t1" |} in
  let c := {| status := down; status_code := Some 404; response_time := 250;
              last_checked := "t1"; error := None |} in
  exists r m',
    get_monitors (Some "https://a.test") p "t0" ∅ =
      (Ok (Probed r), <["https://a.test" := m']> ∅) /\
    last (checks m') = Some c /\
    mr_url r = "https://a.test" /\ mr_status r = status c /\
    mr_status_code r = status_code c /\
    mr_response_time r = response_time c /\ mr_last_checked r = last_checked c /\
    mr_uptime_percentage r = calculate_uptime_percentage m'.
Proof.
  intros p c.
  apply (probe_reports_latest "https://a.test" p "t0" c ∅); reflexivity.
Defined.

(** ** Percentages and latencies *)

Lemma b64_between (x : Q) (n : Z) :
  b64 (inject_Z n) = inject_Z n ->
  (0 <= x <= inject_Z n)%Q -> (0 <= b64 x <= inject_Z n)%Q.
Proof.
  intros Hn [H0 H1]. split; [apply b64_nonneg; exact H0|].
  rewrite <- Hn. apply b64_mono; assumption.
Qed.

(** A part of a whole, as a percentage with two decimals, is between 0
    and 100. *)
Lemma percentage_in_range (a b : nat) :
  (a <= b)%nat -> (0 < b)%nat ->
  (0 <= round2 (fmul (truediv (Z.of_nat a) (Z.of_nat b)) 100) <= 100)%Q.
Proof.
  intros Hab Hb.
  assert (0 < inject_Z (Z.of_nat b))%Q as Hbq.
  { rewrite <- (Zlt_Qlt 0). lia. }
  assert (0 <= inject_Z (Z.of_nat a))%Q as Haq.
  { rewrite <- (Zle_Qle 0). lia. }
  assert (inject_Z (Z.of_nat a) <= inject_Z (Z.of_nat b))%Q as Hle.
  { rewrite <- Zle_Qle. lia. }
  assert (0 <= truediv (Z.of_nat a) (Z.of_nat b) <= inject_Z 1)%Q as [Ht0 Ht1].
  { apply b64_between; [reflexivity|]. split.
    - apply Qle_shift_div_l; [exact Hbq|]. lra.
    - apply Qle_shift_div_r; [exact Hbq|]. change (inject_Z 1) with 1%Q. lra. }
  set (t := truediv (Z.of_nat a) (Z.of_nat b)) in *. clearbody t.
  change (inject_Z 1) with 1%Q in Ht1.
  assert (0 <= fmul t 100 <= inject_Z 100)%Q as [Hv0 Hv1].
  { apply b64_between; [reflexivity|]. change (inject_Z 100) with 100%Q. lra. }
  set (v := fmul t 100) in *. clearbody v.
  change (inject_Z 100) with 100%Q in Hv1.
  assert (0 <= round_half_even (v * 100)) as H0.
  { apply round_half_even_nonneg. lra. }
  assert (round_half_even (v * 100) <= 10000) as H1.
  { apply round_half_even_le. change (inject_Z 10000) with (10000 # 1)%Q. lra. }
  change 100%Q with (inject_Z 100). apply b64_between; [reflexivity|].
  unfold Qle. simpl. lia.
Qed.

(** X10. The uptime percentage of a monitor is always between 0 and
    100. *)
Theorem uptime_in_range (m : Monitor) :
  (0 <= calculate_uptime_percentage m <= 100)%Q.
Proof.
  unfold calculate_uptime_percentage.
  destruct (checks m) as [|c cs] eqn:Hcs; [lra|].
  destruct (Nat.ltb_spec 0 (length (c :: cs))) as [Hpos|_]; [|lra].
  apply percentage_in_range; [|exact Hpos].
  pose proof (up_down_length (c :: cs)). lia.
Qed.

Lemma truediv_same (n : Z) : 0 < n -> truediv n n = 1%Q.
Proof.
  intros Hn. unfold truediv. rewrite (b64_Qeq _ 1); [reflexivity|].
  assert (~ inject_Z n == 0)%Q by (unfold Qeq; simpl; lia).
  field. assumption.
Qed.

Lemma truediv_zero (n : Z) : truediv 0 n = 0%Q.
Proof.
  unfold truediv. apply b64_of_zero. unfold Qdiv. apply Qmult_0_l.
Qed.

Lemma uptime_of_uniform_history (m : Monitor) (s : Status) :
  checks m <> [] ->
  Forall (fun c => status c = s) (checks m) ->
  (calculate_uptime_percentage m == match s with up => 100 | down => 0 end)%Q.
Proof.
  intros Hne Hall. unfold calculate_uptime_percentage.
  destruct (checks m) as [|c cs] eqn:Hcs; [congruence|].
  destruct (Nat.ltb_spec 0 (length (c :: cs))) as [Hpos|Hz]; [|simpl in Hz; lia].
  destruct s.
  - assert (up_checks (c :: cs) = length (c :: cs)) as ->.
    { unfold up_checks. f_equal. clear -Hall.
      induction Hall as [|x l Hx _ IH]; [reflexivity|].
      rewrite filter_cons, decide_True by exact Hx. f_equal. exact IH. }
    rewrite truediv_same by lia. reflexivity.
  - assert (up_checks (c :: cs) = 0%nat) as ->.
    { unfold up_checks. clear -Hall.
      induction Hall as [|x l Hx _ IH]; [reflexivity|].
      rewrite filter_cons, decide_False by congruence. exact IH. }
    change (Z.of_nat 0) with 0. rewrite truediv_zero. reflexivity.
Qed.

(** X11. A non-empty history whose checks are all up has uptime 100, one
    whose checks are all down has uptime 0. *)
Theorem uptime_extremes (m : Monitor) (s : Status) :
  checks m <> [] ->
  Forall (fun c => status c = s) (checks m) ->
  (calculate_uptime_percentage m == match s with up => 100 | down => 0 end)%Q.
Proof.
  intros Hne Hall. destruct s.
  - exact (uptime_of_uniform_history m up Hne Hall).
  - exact (uptime_of_uniform_history m down Hne Hall).
Qed.

Lemma uptime_extremes_witness :
  let c := {| status := down; status_code := None; response_time := 1000000 # 100;
              last_checked := "t1"; error := Some "timed out" |} in
  (calculate_uptime_percentage
     {| url := "https://a.test"; created_at := "t0"; checks := [c; c; c];
        id := None |} == 0)%Q.
Proof.
  intros c.
  apply (uptime_extremes
           {| url := "https://a.test"; created_at := "t0"; checks := [c; c; c];
              id := None |} down).
  - discriminate.
  - repeat constructor.
Defined.

(** X12. A successful registration answers with the identifier it has
    stored, one check in total and an uptime of 100.0 whatever the
    initial check found; the uptime computed from the stored record is
    100 only when that check is up, and 0 when it is down. *)
Theorem registration_answer (u : string) (p : Probe) (created_now : string)
    (id_clock : Q) (c : Check) (ms : gmap string Monitor) :
  startswith_any u http_prefixes = true -> ms !! u = None ->
  check_url_status u p = Ok c ->
  exists a m,
    add_monitor_logic u p created_now id_clock ms = (Ok a, <[u := m]> ms) /\
    a_url a = u /\ uptime a = 100%Q /\ totalChecks a = 1%nat /\
    avgResponseTime a = response_time c /\
    lc_status (lastCheck a) = status c /\
    id m = Some (a_id a) /\ created_at m = created_now /\
    length (checks m) = totalChecks a /\
    (calculate_uptime_percentage m ==
       match status c with up => 100 | down => 0 end)%Q.
Proof.
  intros Hu Hm Hc.
  pose proof (add_monitor_logic_store u p created_now id_clock ms c Hu Hm Hc) as Hst.
  revert Hst. unfold add_monitor_logic. rewrite Hu, Hm, Hc. cbn [negb snd].
  intros ->. eexists _, _. split; [reflexivity|]. simpl.
  repeat (split; [reflexivity|]).
  apply (uptime_of_uniform_history
           {| url := u; created_at := created_now; checks := [c];
              id := Some (str_of_int (int_of_float (fmul id_clock 1000))) |} (status c)).
  - discriminate.
  - repeat constructor.
Qed.

Lemma registration_answer_witness :
  let p := {| start_time := 0; outcome := Responded 500; end_time := 1 # 4;
              now_iso := "t1" |} in
  let c := {| status := down; status_code := Some 500; response_time := 250;
              last_checked := "t1"; error := None |} in
  exists a m,
    add_monitor_logic "https://a.test" p "t0" 5 ∅ =
      (Ok a, <["https://a.test" := m]> ∅) /\
    a_url a = "https://a.test" /\ uptime a = 100%Q /\ totalChecks a = 1%nat /\
    avgResponseTime a = response_time c /\
    lc_status (lastCheck a) = status c /\
    id m = Some (a_id a) /\ created_at m = "t0" /\
    length (checks m) = totalChecks a /\
    (calculate_uptime_percentage m ==
       match status c with up => 100 | down => 0 end)%Q.
Proof.
  intros p c.
  apply (registration_answer "https://a.test" p "t0" 5 c ∅); reflexivity.
Defined.

(** X13. On both paths of the probe the recorded latency is the elapsed
    time in milliseconds rounded to two decimals and the timestamp is
    the current time; the latency is not negative unless the clock went
    backwards. *)
Theorem response_time_measured (u : string) (p : Probe) (c : Check) :
  check_url_status u p = Ok c ->
  response_time c = round2 (fmul (fsub (end_time p) (start_time p)) 1000) /\
  last_checked c = now_iso p /\
  ((start_time p <= end_time p)%Q -> (0 <= response_time c)%Q).
Proof.
  unfold check_url_status, client_get, try_except.
  assert ((start_time p <= end_time p)%Q ->
          (0 <= round2 (fmul (fsub (end_time p) (start_time p)) 1000))%Q) as Hpos.
  { intros Hle.
    assert (0 <= fsub (end_time p) (start_time p))%Q as Hd.
    { apply b64_nonneg. lra. }
    assert (0 <= fmul (fsub (end_time p) (start_time p)) 1000)%Q as Hm.
    { apply b64_nonneg. apply Qmult_le_0_compat; [exact Hd|lra]. }
    unfold round2. apply b64_nonneg.
    assert (0 <= round_half_even
                   (fmul (fsub (end_time p) (start_time p)) 1000 * 100)) as H.
    { apply round_half_even_nonneg. apply Qmult_le_0_compat; [exact Hm|lra]. }
    unfold Qle. simpl. lia. }
  destruct (outcome p); intros [= <-]; simpl; auto.
Qed.

Lemma response_time_measured_witness :
  let p := {| start_time := 10; outcome := Responded 301; end_time := 81 # 8;
              now_iso := "t1" |} in
  let c := {| status := up; status_code := Some 301; response_time := 125;
              last_checked := "t1"; error := None |} in
  response_time c = round2 (fmul (fsub (end_time p) (start_time p)) 1000) /\
  last_checked c = now_iso p /\
  ((start_time p <= end_time p)%Q -> (0 <= response_time c)%Q).
Proof.
  intros p c. apply (response_time_measured "https://a.test" p c).
  vm_compute. reflexivity.
Defined.

(** ** History retrieval, all limits *)

(** X14. Whatever the limit, the history answer of a monitored URL is
    a suffix of the stored history (the most recent checks, oldest
    first) together with the count of all stored checks and the uptime
    percentage; a negative limit [-n] drops the [n] oldest checks. *)
Theorem history_is_suffix (ms : gmap string Monitor) (u : string)
    (m : Monitor) (limit : Z) :
  ms !! u = Some m ->
  exists h,
    get_monitor_history u limit ms = (Ok h, ms) /\
    h_url h = u /\
    h_checks h `suffix_of` checks m /\
    total_checks h = length (checks m) /\
    uptime_percentage h = calculate_uptime_percentage m /\
    (limit < 0 -> h_checks h = drop (Z.to_nat (- limit)) (checks m)).
Proof.
  intros Hm. unfold get_monitor_history. rewrite Hm.
  eexists. split; [reflexivity|]. simpl.
  split; [reflexivity|]. split; [apply suffix_drop|].
  split; [reflexivity|]. split; [reflexivity|].
  intros Hneg. unfold slice_from.
  destruct (Z.ltb_spec (- limit) 0) as [?|_]; [lia|].
  destruct (Z.le_gt_cases (- limit) (Z.of_nat (length (checks m)))) as [Hle|Hgt].
  - rewrite Z.min_l by exact Hle. reflexivity.
  - rewrite Z.min_r by lia. rewrite Nat2Z.id.
    rewrite !drop_ge by lia. reflexivity.
Qed.

Lemma history_is_suffix_witness :
  let c1 := {| status := up; status_code := Some 200; response_time := 12;
               last_checked := "t1"; error := None |} in
  let c2 := {| status := down; status_code := Some 500; response_time := 15;
               last_checked := "t2"; error := None |} in
  let m := mkMonitor "https://a.test" "t0" [c1; c2] (Some "5000") in
  let ms : gmap string Monitor := {[ "https://a.test" := m ]} in
  exists h,
    get_monitor_history "https://a.test" (-1) ms = (Ok h, ms) /\
    h_url h = "https://a.test" /\
    h_checks h `suffix_of` checks m /\
    total_checks h = length (checks m) /\
    uptime_percentage h = calculate_uptime_percentage m /\
    (-1 < 0 -> h_checks h = drop (Z.to_nat (- -1)) (checks m)).
Proof.
  intros c1 c2 m ms.
  apply (history_is_suffix ms "https://a.test" m (-1)). reflexivity.
Defined.

(** X15. With a limit of at least 1 the history answer holds exactly
    the [min(limit, K)] most recent of the [K] stored checks, oldest
    first. *)
Theorem history_recent_window (ms : gmap string Monitor) (u : string)
    (m : Monitor) (limit : Z) :
  ms !! u = Some m -> 0 < limit ->
  exists h,
    get_monitor_history u limit ms = (Ok h, ms) /\
    h_checks h = most_recent (Z.to_nat limit `min` length (checks m)) (checks m) /\
    length (h_checks h) = (Z.to_nat limit `min` length (checks m))%nat /\
    total_checks h = length (checks m).
Proof.
  intros Hm Hl. rewrite (history_positive_limit ms u m limit Hm Hl).
  eexists. split; [reflexivity|]. simpl. split; [reflexivity|].
  split; [|reflexivity]. rewrite length_most_recent.
  apply Nat.min_l, Nat.le_min_r.
Qed.

Lemma history_recent_window_witness :
  let c1 := {| status := up; status_code := Some 200; response_time := 12;
               last_checked := "t1"; error := None |} in
  let c2 := {| status := down; status_code := Some 500; response_time := 15;
               last_checked := "t2"; error := None |} in
  let m := mkMonitor "https://a.test" "t0" [c1; c2] (Some "5000") in
  let ms : gmap string Monitor := {[ "https://a.test" := m ]} in
  exists h,
    get_monitor_history "https://a.test" 1 ms = (Ok h, ms) /\
    h_checks h = most_recent (Z.to_nat 1 `min` length (checks m)) (checks m) /\
    length (h_checks h) = (Z.to_nat 1 `min` length (checks m))%nat /\
    total_checks h = length (checks m).
Proof.
  intros c1 c2 m ms.
  apply (history_recent_window ms "https://a.test" m 1); [reflexivity|lia].
Defined.

(** ** The listing *)

Lemma listing_loop (l : list (string * Monitor)) (acc : list MonitorResponse) :
  foldl listing_step acc l = acc ++ omap listing_entry l.
Proof.
  revert acc. induction l as [|item l IH]; intros acc; simpl.
  - rewrite app_nil_r. reflexivity.
  - rewrite IH. unfold listing_step, listing_entry.
    destruct (last (checks item.2)); simpl.
    + rewrite <- app_assoc. reflexivity.
    + reflexivity.
Qed.

Lemma length_omap_listing_entry (l : list (string * Monitor)) :
  length (omap listing_entry l) = length (filter has_checks l).
Proof.
  induction l as [|item l IH]; [reflexivity|].
  rewrite filter_cons. simpl.
  assert (has_checks item <-> is_Some (last (checks item.2))) as Hhas by reflexivity.
  unfold listing_entry at 1.
  destruct (last (checks item.2)) as [c|]; simpl.
  - rewrite decide_True by (rewrite Hhas; eauto). simpl. f_equal. exact IH.
  - rewrite decide_False by (rewrite Hhas; intros [? ?]; discriminate). exact IH.
Qed.



(** ** Statistics *)

Lemma length_filter_up_down (l : list (string * Monitor)) :
  (length (filter (latest_is up) l) + length (filter (latest_is down) l)
   = length (filter has_checks l))%nat.
Proof.
  induction l as [|[k m] l IH]; [reflexivity|].
  rewrite !filter_cons.
  assert (forall s, latest_is s (k, m) <-> status <$> last (checks m) = Some s) as Hiff
    by (intros s; reflexivity).
  assert (has_checks (k, m) <-> is_Some (last (checks m))) as Hhas by reflexivity.
  destruct (last (checks m)) as [c|]; simpl in *.
  - rewrite (decide_True (P := has_checks (k, m))) by (rewrite Hhas; eauto).
    destruct (status c) eqn:Hs.
    + rewrite decide_True, decide_False by (rewrite Hiff; congruence). simpl. lia.
    + rewrite decide_False, decide_True by (rewrite Hiff; congruence). simpl. lia.
  - rewrite (decide_False (P := has_checks (k, m)))
      by (rewrite Hhas; intros [? ?]; discriminate).
    rewrite !decide_False by (rewrite Hiff; congruence). exact IH.
Qed.

(** X17. In the statistics of any store the up and down counts are the
    lengths of the two lists, together they count the monitors that
    have a check and so never exceed the total, and the overall uptime
    is between 0 and 100. *)
Theorem stats_counts (ms : gmap string Monitor) :
  exists st, get_stats ms = (Ok st, ms) /\
    length (up_urls st) = up_monitors st /\
    length (down_urls st) = down_monitors st /\
    (up_monitors st + down_monitors st)%nat = size (filter has_checks ms) /\
    (up_monitors st + down_monitors st <= total_monitors st)%nat /\
    (0 <= overall_uptime st <= 100)%Q.
Proof.
  unfold get_stats. eexists. split; [reflexivity|]. simpl.
  destruct (stats_loop (map_to_list ms)
              {| l_up_monitors := 0; l_down_monitors := 0;
                 l_down_urls := []; l_up_urls := [] |})
    as (H1 & H2 & H3 & H4).
  simpl in H1, H2, H3, H4.
  apply (f_equal length) in H3. apply (f_equal length) in H4.
  rewrite !length_fmap in H3. rewrite !length_fmap in H4.
  pose proof (length_filter_up_down (map_to_list ms)) as Hsum.
  assert (size (filter has_checks ms) <= size ms)%nat as Hle.
  { apply map_subseteq_size, map_filter_subseteq. }
  split; [congruence|]. split; [congruence|].
  rewrite (length_filter_map_to_list has_checks) in Hsum.
  rewrite <- Hsum in Hle |- *. rewrite <- H1, <- H2 in Hle |- *.
  split; [reflexivity|]. split; [exact Hle|].
  destruct (Nat.ltb_spec 0 (size ms)) as [Hpos|_]; [|lra].
  apply percentage_in_range; [|exact Hpos].
  revert Hle. apply Nat.le_trans, Nat.le_add_r.
Qed.

(** X18. After any sequence of requests every monitor is either up or
    down in the statistics: the two counts add up to the total. *)
Theorem stats_partition_reachable (key : string) (rs : list Request) :
  exists st, get_stats (serve key rs) = (Ok st, serve key rs) /\
    (up_monitors st + down_monitors st)%nat = total_monitors st.
Proof.
  unfold get_stats. eexists. split; [reflexivity|]. simpl.
  destruct (stats_loop (map_to_list (serve key rs))
              {| l_up_monitors := 0; l_down_monitors := 0;
                 l_down_urls := []; l_up_urls := [] |})
    as (H1 & H2 & _ & _).
  simpl in H1, H2. rewrite H1, H2, length_filter_up_down.
  rewrite (length_filter_map_to_list has_checks). f_equal.
  apply map_filter_id. intros k m Hm.
  destruct (serve_ok key rs k m Hm) as (_ & _ & Hne & _).
  unfold has_checks. simpl. apply last_is_Some. exact Hne.
Qed.

(** ** Identifiers, again *)

Lemma to_int_proper (z : Z) :
  Z.to_int z <> Decimal.Pos Decimal.Nil /\ Z.to_int z <> Decimal.Neg Decimal.Nil.
Proof.
  destruct z as [|q|q]; simpl; split; intros H; try discriminate H;
    inversion H as [Hq]; exact (DecimalPos.Unsigned.to_uint_nonnil q Hq).
Qed.

(** [str] of an integer determines the integer. *)
Lemma str_of_int_inj (a b : Z) : str_of_int a = str_of_int b -> a = b.
Proof.
  unfold str_of_int. intros H.
  apply (f_equal NilZero.int_of_string) in H.
  destruct (to_int_proper a) as [Ha1 Ha2]. destruct (to_int_proper b) as [Hb1 Hb2].
  rewrite !NilZero.isi in H by assumption.
  inversion H as [Hab]. apply (f_equal Z.of_int) in Hab.
  rewrite !DecimalZ.of_to in Hab. exact Hab.
Qed.

Lemma add_monitor_logic_answer_id (u : string) (p : Probe) (created_now : string)
    (id_clock : Q) (ms ms' : gmap string Monitor) (a : Added) :
  add_monitor_logic u p created_now id_clock ms = (Ok a, ms') ->
  a_id a = str_of_int (int_of_float (fmul id_clock 1000)).
Proof.
  unfold add_monitor_logic. destruct (startswith_any u http_prefixes); [|discriminate].
  simpl. destruct (ms !! u); [discriminate|].
  destruct (check_url_status u p); [|discriminate].
  intros [= <- _]. reflexivity.
Qed.

Lemma int_of_float_mono (x y : Q) :
  (0 <= x)%Q -> (x <= y)%Q -> int_of_float x <= int_of_float y.
Proof.
  intros Hx Hxy. unfold int_of_float.
  assert (0 <= Qnum x) as Hnx by (unfold Qle in Hx; simpl in Hx; lia).
  assert (0 <= Qnum y) as Hny.
  { pose proof (Qle_trans _ _ _ Hx Hxy) as Hy. unfold Qle in Hy. simpl in Hy. lia. }
  rewrite !Z.quot_div_nonneg by lia.
  pose proof (Qfloor_resp_le x y Hxy) as H.
  destruct x as [a b], y as [c d]. exact H.
Qed.

(** X19. The identifier of a successful registration is the decimal
    writing of [int(time.time() * 1000)], the product being the float
    product.  Two registrations get the same identifier exactly when
    these numbers are equal, and when the clock has not gone backwards
    between them the number of the second is not below that of the
    first. *)
Theorem ids_follow_the_clock
    (u1 u2 : string) (p1 p2 : Probe) (now1 now2 : string) (t1 t2 : Q)
    (ms1 ms1' ms2 ms2' : gmap string Monitor) (a1 a2 : Added) :
  add_monitor_logic u1 p1 now1 t1 ms1 = (Ok a1, ms1') ->
  add_monitor_logic u2 p2 now2 t2 ms2 = (Ok a2, ms2') ->
  let n1 := int_of_float (fmul t1 1000) in
  let n2 := int_of_float (fmul t2 1000) in
  a_id a1 = str_of_int n1 /\ a_id a2 = str_of_int n2 /\
  (a_id a1 = a_id a2 <-> n1 = n2) /\
  ((0 <= t1)%Q -> (t1 <= t2)%Q -> n1 <= n2).
Proof.
  intros H1 H2 n1 n2.
  rewrite (add_monitor_logic_answer_id _ _ _ _ _ _ _ H1).
  rewrite (add_monitor_logic_answer_id _ _ _ _ _ _ _ H2).
  split; [reflexivity|]. split; [reflexivity|]. split.
  - split; [apply str_of_int_inj|]. unfold n1, n2. intros ->. reflexivity.
  - intros H0 Hle. apply int_of_float_mono.
    + apply b64_nonneg. apply Qmult_le_0_compat; [exact H0|lra].
    + apply b64_mono.
      * apply Qmult_le_0_compat; [exact H0|lra].
      * apply Qmult_le_compat_r; [exact Hle|lra].
Qed.

Lemma ids_follow_the_clock_witness :
  let p := {| start_time := 0; outcome := Responded 200; end_time := 1 # 4;
              now_iso := "t1" |} in
  let t1 : Q := b64 (17000000000005 # 10000) in
  let t2 : Q := b64 (1700000000001 # 1000) in
  let n1 := int_of_float (fmul t1 1000) in
  let n2 := int_of_float (fmul t2 1000) in
  exists a1 a2,
    (add_monitor_logic "https://a.test" p "t0" t1 ∅).1 = Ok a1 /\
    (add_monitor_logic "https://b.test" p "t0" t2 ∅).1 = Ok a2 /\
    a_id a1 = str_of_int n1 /\ a_id a2 = str_of_int n2 /\
    (a_id a1 = a_id a2 <-> n1 = n2) /\
    ((0 <= t1)%Q -> (t1 <= t2)%Q -> n1 <= n2).
Proof.
  intros p t1 t2 n1 n2. eexists _, _.
  split; [reflexivity|]. split; [reflexivity|].
  eapply (ids_follow_the_clock "https://a.test" "https://b.test"
            p p "t0" "t0" t1 t2 ∅ _ ∅ _); reflexivity.
Defined.

(** The clock readings 1700000000.0005 and 1700000000.001 lie in the
    same millisecond, and the float product tells them apart. *)
Example ids_at_two_readings :
  str_of_int (int_of_float (fmul (b64 (17000000000005 # 10000)) 1000))
    = "1700000000000" /\
  str_of_int (int_of_float (fmul (b64 (1700000000001 # 1000)) 1000))
    = "1700000000001".
Proof. vm_compute. split; reflexivity. Qed.

(** ** Outcomes of a registration *)

(** X20. A registration has exactly three outcomes: it is refused as an
    invalid URL when the URL has neither prefix, whether or not it is a
    key; refused as a duplicate when the URL is valid and already a key;
    and it succeeds when the URL is valid and not yet a key. *)
Theorem registration_outcomes (u : string) (p : Probe) (created_now : string)
    (id_clock : Q) (ms : gmap string Monitor) :
  match (add_monitor_logic u p created_now id_clock ms).1 with
  | Ok a =>
      startswith_any u http_prefixes = true /\ ms !! u = None /\ a_url a = u
  | Raise e =>
      (e = Http invalid_url /\ startswith_any u http_prefixes = false) \/
      (e = Http already_monitored /\ startswith_any u http_prefixes = true /\
       is_Some (ms !! u))
  end.
Proof.
  unfold add_monitor_logic. destruct (startswith_any u http_prefixes) eqn:Hu; simpl.
  - destruct (ms !! u) as [m|] eqn:Hm; simpl.
    + right. eauto.
    + destruct (check_url_status_returns u p) as [c ->]. simpl. auto.
  - left. auto.
Qed.

(** ** Listing and statistics together *)

(** X21. After any sequence of requests the listing has one entry per
    monitor: its total is the number of monitors, the same number the
    statistics give as their total. *)
Theorem listing_total_reachable (key : string) (rs : list Request)
    (p : Probe) (created_now : string) :
  exists result st,
    get_monitors None p created_now (serve key rs) =
      (Ok (Listing result (length result)), serve key rs) /\
    get_stats (serve key rs) = (Ok st, serve key rs) /\
    length result = size (serve key rs) /\
    length result = total_monitors st.
Proof.
  unfold get_monitors, get_stats. simpl. eexists _, _.
  split; [reflexivity|]. split; [reflexivity|]. simpl.
  assert (length (foldl listing_step [] (map_to_list (serve key rs)))
          = size (serve key rs)) as Hlen.
  { rewrite listing_loop. simpl. rewrite length_omap_listing_entry.
    rewrite (length_filter_map_to_list has_checks). f_equal.
    apply map_filter_id. intros k m Hm.
    destruct (serve_ok key rs k m Hm) as (_ & _ & Hne & _).
    unfold has_checks. simpl. apply last_is_Some. exact Hne. }
  split; exact Hlen.
Qed.
